(** * TestOpenCLSamplers: the CPU reference for CL_ADDRESS_MIRRORED_REPEAT
      and the harness that compares it with the kernel output.

    The development embeds [src/TestOpenCLSamplers.cpp]:
    - [int] and [unsigned int] are 32-bit; values are kept in [Z] and every
      arithmetic operation of the source is followed by its wrap-around;
    - [std::vector<float>] is a [list]; [operator[]] outside the vector is a
      fault ([OutOfRange]), [%] by zero is a fault;
    - the two vector references of [cpu_reference_calculation] are the two
      buffers of a [store] (distinct objects, as at the call in [main]);
      the store also records, as ghost state, the sequence of element
      accesses, so that frame and safety properties can be stated;
    - the OpenCL runtime, the file system and the device are an [Env]
      record of the values the calls of [main] hand back. *)

From Stdlib Require Import ZArith Lia Bool.
From Stdlib Require Import Floats.SpecFloat.
From stdpp Require Import base list list_numbers strings.

Local Open Scope Z_scope.

(* ===================================================================== *)
(** ** 32-bit integers *)
(* ===================================================================== *)

Definition INT_MIN : Z := -2147483648.
Definition INT_MAX : Z := 2147483647.
Definition UINT_MAX : Z := 4294967295.

(** The values of type [int], and of type [unsigned int]. *)
Definition is_int (z : Z) : Prop := INT_MIN <= z <= INT_MAX.
Definition is_uint (z : Z) : Prop := 0 <= z <= UINT_MAX.

(** Two's complement wrap-around of a mathematical integer into [int]. *)
Definition wrap_int (z : Z) : Z := (z - INT_MIN) mod 4294967296 + INT_MIN.

Definition int_add (a b : Z) : Z := wrap_int (a + b).
Definition int_sub (a b : Z) : Z := wrap_int (a - b).
Definition int_mul (a b : Z) : Z := wrap_int (a * b).
Definition int_neg (a : Z) : Z := wrap_int (- a).

(** [static_cast<int>(u)] for an [unsigned int] [u]: the value modulo 2^32. *)
Definition static_cast_int (u : Z) : Z := wrap_int u.

(* ===================================================================== *)
(** ** Faults and the result type *)
(* ===================================================================== *)

(** The vectors the program indexes. *)
Inductive buffer : Type :=
| SrcData | DstData             (* in cpu_reference_calculation *)
| Mat                           (* in printMatrix *)
| CpuResult | KernelResult.     (* in the comparison of main *)

Inductive fault : Type :=
| OutOfRange (b : buffer) (i : Z)   (* b[i] outside the vector *)
| DivisionByZero.                   (* a % b with b = 0, or INT_MIN % -1 *)

Definition result (X : Type) : Type := fault + X.

(** [a % b] on [int]: truncated remainder, the sign follows the dividend. *)
Definition int_rem (a b : Z) : result Z :=
  if (b =? 0) || ((a =? INT_MIN) && (b =? -1)) then inl DivisionByZero
  else inr (Z.rem a b).

(** [v[i]] with an [int] index: the index is converted to [size_t], so a
    negative one is far outside any vector. *)
Definition vec_index {A : Type} (v : list A) (i : Z) : option A :=
  if i <? 0 then None else v !! Z.to_nat i.

(* ===================================================================== *)
(** ** Mirroring of one axis (lines 35-38 and 41-44) *)
(* ===================================================================== *)

(** The source writes the same four lines once for X and once for Y:
<<
    int x_prime = x_shifted;
    if (x_prime < 0) x_prime = -x_prime - 1;
    int x_mod_2s = x_prime % (src_w * 2);
    int x_src = (x_mod_2s < src_w) ? x_mod_2s : (src_w * 2 - 1 - x_mod_2s);
>> *)
Definition mirror_axis (extent shifted : Z) : result Z :=
  let prime := if shifted <? 0 then int_sub (int_neg shifted) 1 else shifted in
  match int_rem prime (int_mul extent 2) with
  | inl f => inl f
  | inr mod_2s =>
      inr (if mod_2s <? extent then mod_2s
           else int_sub (int_sub (int_mul extent 2) 1) mod_2s)
  end.

(** The per-axis steps as the specification words them, over the
    mathematical integers. *)
Module Spec.
Definition prime (shifted : Z) : Z :=
  if 0 <=? shifted then shifted else - shifted - 1.
Definition mod2s (extent shifted : Z) : Z :=
  prime shifted mod (2 * extent).
Definition src_index (extent shifted : Z) : Z :=
  if mod2s extent shifted <? extent then mod2s extent shifted
  else 2 * extent - 1 - mod2s extent shifted.
End Spec.

(* ===================================================================== *)
(** ** The store and its monad *)
(* ===================================================================== *)

Inductive access : Type :=
| ReadSrc (i : Z)
| WriteDst (i : Z).

Definition reads (t : list access) : list Z :=
  omap (fun a => match a with ReadSrc i => Some i | WriteDst _ => None end) t.
Definition writes (t : list access) : list Z :=
  omap (fun a => match a with WriteDst i => Some i | ReadSrc _ => None end) t.

Section Evaluator.
Context {A : Type}.

Record store : Type := Store {
  src_data : list A;
  dst_data : list A;
  trace : list access
}.

Definition M (X : Type) : Type := store -> result (X * store).

Definition ret {X} (x : X) : M X := fun st => inr (x, st).
Definition bind {X Y} (m : M X) (k : X -> M Y) : M Y :=
  fun st => match m st with
            | inl f => inl f
            | inr (x, st') => k x st'
            end.
Definition lift {X} (r : result X) : M X :=
  fun st => match r with inl f => inl f | inr x => inr (x, st) end.

Notation "x <- m ;; k" := (bind m (fun x => k))
  (at level 100, m at next level, right associativity).

(** [src_data[i]] *)
Definition read_src (i : Z) : M A :=
  fun st => match vec_index (src_data st) i with
            | Some v => inr (v, Store (src_data st) (dst_data st)
                                      (trace st ++ [ReadSrc i]))
            | None => inl (OutOfRange SrcData i)
            end.

(** [dst_data[i] = v] *)
Definition write_dst (i : Z) (v : A) : M unit :=
  fun st => match vec_index (dst_data st) i with
            | Some _ => inr (tt, Store (src_data st)
                                       (<[Z.to_nat i := v]> (dst_data st))
                                       (trace st ++ [WriteDst i]))
            | None => inl (OutOfRange DstData i)
            end.

(** [for (int i = 0; i < n; ++i) body(i)]: the body runs for
    [i = 0, ..., n-1], so [Z.to_nat n] times; [++i] stays below [n]. *)
Fixpoint for_loop (count : nat) (i : Z) (body : Z -> M unit) : M unit :=
  match count with
  | O => ret tt
  | S count' => _ <- body i ;; for_loop count' (i + 1) body
  end.

(** The body of the inner loop, lines 30-47. *)
Definition pixel (src_w src_h dst_w : Z) (offset_x offset_y : Z)
    (y_out x_out : Z) : M unit :=
  let x_shifted := int_sub x_out (static_cast_int offset_x) in
  let y_shifted := int_sub y_out (static_cast_int offset_y) in
  x_src <- lift (mirror_axis src_w x_shifted) ;;
  y_src <- lift (mirror_axis src_h y_shifted) ;;
  v <- read_src (int_add (int_mul y_src src_w) x_src) ;;
  write_dst (int_add (int_mul y_out dst_w) x_out) v.

Definition cpu_reference_calculation (src_w src_h dst_w dst_h : Z)
    (offset_x offset_y : Z) : M unit :=
  for_loop (Z.to_nat dst_h) 0 (fun y_out =>
    for_loop (Z.to_nat dst_w) 0 (fun x_out =>
      pixel src_w src_h dst_w offset_x offset_y y_out x_out)).

End Evaluator.

Arguments store : clear implicits.
Arguments M : clear implicits.

(** The call [cpu_reference_calculation(src, dst, ...)] on two vectors: the
    contents of [dst] afterwards. *)
Definition call_cpu_reference_calculation {A} (src dst : list A)
    (src_w src_h dst_w dst_h offset_x offset_y : Z) : result (list A) :=
  match cpu_reference_calculation src_w src_h dst_w dst_h offset_x offset_y
          (Store src dst []) with
  | inl f => inl f
  | inr (_, st) => inr (dst_data st)
  end.

(* ===================================================================== *)
(** ** Single-precision values *)
(* ===================================================================== *)

(** [float] is IEEE binary32: 24 bits of precision, maximal exponent 128. *)
Definition float : Type := spec_float.

(** [(float)i] for an [int] [i]. *)
Definition float_of_int (i : Z) : float := binary_normalize 24 128 i 0 false.

(** [0.0f], the value a [std::vector<float>(n)] is filled with. *)
Definition float_zero : float := S754_zero false.

(** [a != b] on [float]: IEEE comparison, a NaN differs from everything. *)
Definition float_ne (a b : float) : bool := negb (SFeqb a b).

(* ===================================================================== *)
(** ** The process: console output, exit, faults *)
(* ===================================================================== *)

Inductive stream : Type := Cout | Cerr.

(** What a run leaves behind: text inserted into [std::cout] or [std::cerr],
    and (ghost) the index of each pair of elements the comparison looked at. *)
Inductive event : Type :=
| Print (s : stream) (text : string)
| Compared (i : Z).

Inductive outcome (X : Type) : Type :=
| Value (x : X)             (* the statement completed *)
| Exited (code : Z)         (* exit(code) *)
| Faulted (f : fault).
Arguments Value {X} x.
Arguments Exited {X} code.
Arguments Faulted {X} f.

Definition Proc (X : Type) : Type := (outcome X * list event)%type.

Definition pret {X} (x : X) : Proc X := (Value x, []).
Definition pbind {X Y} (m : Proc X) (k : X -> Proc Y) : Proc Y :=
  match m with
  | (Value x, es) => let '(o, es') := k x in (o, es ++ es')
  | (Exited c, es) => (Exited c, es)
  | (Faulted f, es) => (Faulted f, es)
  end.

Notation "x <- m ;; k" := (pbind m (fun x => k))
  (at level 100, m at next level, right associativity).

Definition print (s : stream) (text : string) : Proc unit :=
  (Value tt, [Print s text]).
Definition exit {X} (code : Z) : Proc X := (Exited code, []).
Definition lift_result {X} (r : result X) : Proc X :=
  match r with inl f => (Faulted f, []) | inr x => (Value x, []) end.

Definition endl : string := String (Ascii.ascii_of_nat 10) EmptyString.

(** The text a run inserted into one stream, in order. *)
Definition text_of (s : stream) (es : list event) : list string :=
  omap (fun e => match e, s with
                 | Print Cout t, Cout | Print Cerr t, Cerr => Some t
                 | _, _ => None
                 end) es.

(** The indices the comparison looked at, in order. *)
Definition compared (es : list event) : list Z :=
  omap (fun e => match e with Compared i => Some i | Print _ _ => None end) es.

(** [CL_SUCCESS] of <CL/cl.h>. *)
Definition CL_SUCCESS : Z := 0.

(* ===================================================================== *)
(** ** printMatrix (lines 52-74) *)
(* ===================================================================== *)

(** [size_t] is 64-bit. *)
Definition wrap_size (z : Z) : Z := z mod 18446744073709551616.

(** [std::setw(w) << text]: right-adjusted in a field of [w] characters. *)
Definition setw (w : nat) (text : string) : string :=
  String.concat "" (replicate (w - String.length text) " ") +:+ text.

(** [for (size_t i = 0; i < n; ++i) body(i)] *)
Fixpoint proc_for (count : nat) (i : Z) (body : Z -> Proc unit) : Proc unit :=
  match count with
  | O => pret tt
  | S count' => _ <- body i ;; proc_for count' (i + 1) body
  end.

Section PrintMatrix.
(** The template parameter, and [operator<<] of the output streams on it
    (library code), as the text it inserts. *)
Context {T : Type} (show : T -> string).

Definition printMatrix (mat : list T) (width height : Z) : Proc unit :=
  let maxWidth :=
    foldl (fun w val => Nat.max w (String.length (show val))) 0%nat mat in
  _ <- print Cout ("[" +:+ endl) ;;
  _ <- proc_for (Z.to_nat height) 0 (fun y =>
         _ <- print Cout " [" ;;
         _ <- proc_for (Z.to_nat width) 0 (fun x =>
                let i := wrap_size (wrap_size (y * width) + x) in
                val <- lift_result
                         (match mat !! Z.to_nat i with
                          | Some v => inr v
                          | None => inl (OutOfRange Mat i)
                          end) ;;
                _ <- print Cout (setw maxWidth (show val)) ;;
                if wrap_size (x + 1) <? width then print Cout " "
                else pret tt) ;;
         _ <- print Cout "]" ;;
         _ <- (if wrap_size (y + 1) <? height then print Cout ","
               else pret tt) ;;
         print Cout endl) ;;
  print Cout ("]" +:+ endl).
End PrintMatrix.

(* ===================================================================== *)
(** ** main (lines 76-223) *)
(* ===================================================================== *)

(** What the world outside the program hands back to [main]: the status of
    each OpenCL call, whether the kernel file opens, the build log, and the
    image the device computed.  Where [CL_CHECK] is handed a call, the
    macro pastes the call twice, so a failing call is made a second time
    for the message: the fields [.._again] are the statuses of these second
    calls. *)
Record Env : Type := {
  clGetPlatformIDs : Z;
  clGetDeviceIDs : Z;
  clCreateContext : Z;
  clCreateCommandQueue : Z;
  kernel_file_is_open : bool;
  clCreateProgramWithSource : Z;
  clBuildProgram : Z;
  clGetProgramBuildInfo_size : Z;
  clGetProgramBuildInfo_log : Z;
  (** the log as a C string; [None] when the size reported at line 136 is
      0, so that [log_buffer] is empty and its [data()] is a null pointer *)
  build_log : option string;
  clCreateKernel : Z;
  clCreateImage_in : Z;
  clCreateImage_out : Z;
  clSetKernelArg_0 : Z;
  clSetKernelArg_1 : Z;
  clSetKernelArg_2 : Z;
  clEnqueueNDRangeKernel : Z;
  clEnqueueReadImage : Z;
  clFinish : Z;
  (** pixel [i] (row-major) of the output image, as clEnqueueReadImage
      copies it into kernel_result_manual *)
  image_out_manual : Z -> float;
  clGetPlatformIDs_again : Z;
  clGetDeviceIDs_again : Z;
  clGetProgramBuildInfo_size_again : Z;
  clGetProgramBuildInfo_log_again : Z;
  clSetKernelArg_0_again : Z;
  clSetKernelArg_1_again : Z;
  clSetKernelArg_2_again : Z;
  clEnqueueNDRangeKernel_again : Z;
  clEnqueueReadImage_again : Z;
  clFinish_again : Z
}.

(** Lines 78-84. *)
Definition input_width : Z := 4.
Definition input_height : Z := 5.
Definition output_width : Z := 12.
Definition output_height : Z := 12.
Definition input_size : Z := int_mul input_width input_height.
Definition output_size : Z := int_mul output_width output_height.
Definition offset : Z * Z := (5, 2).

(** Lines 87-90: element [i] is [(float)i]. *)
Definition host_input_data : list float :=
  float_of_int <$> seqZ 0 input_size.

(** Lines 93 and 97: [cpu_result] after the call of the reference. *)
Definition cpu_result : result (list float) :=
  call_cpu_reference_calculation host_input_data
    (replicate (Z.to_nat output_size) float_zero)
    input_width input_height output_width output_height
    (fst offset) (snd offset).

(** Lines 94 and 188: [kernel_result_manual] once clEnqueueReadImage has
    copied the 12 x 12 region of the output image into it. *)
Definition kernel_result_manual (env : Env) : list float :=
  image_out_manual env <$> seqZ 0 output_size.

Section Harness.
(** [operator<<] on [float] and on [int] (library code), as text. *)
Context (show_float : float -> string) (show_int : Z -> string).

(** The macro of lines 12-16.  Its argument is pasted twice: [status] is
    the value the test sees, [printed] the value of the second evaluation,
    which the message shows (the same variable when the argument is [err],
    the status of a second call when it is a call); [line] is [__LINE__]
    at the use. *)
Definition CL_CHECK (status printed : Z) (line : Z) : Proc unit :=
  if negb (status =? CL_SUCCESS) then
    _ <- print Cerr ("OpenCL Error: " +:+ show_int printed +:+ " at line "
                       +:+ show_int line +:+ endl) ;;
    exit 1
  else pret tt.

(** Line 139.  The insertion of a null [char*] puts [std::cerr] in the
    error state, and the [std::endl] after it writes nothing. *)
Definition build_error_message (log : option string) : string :=
  match log with
  | Some text => "OpenCL Build Error: " +:+ text +:+ endl
  | None => "OpenCL Build Error: "
  end.

Definition element (b : buffer) (v : list float) (i : Z) : Proc float :=
  lift_result (match vec_index v i with
               | Some x => inr x
               | None => inl (OutOfRange b i)
               end).

(** The line written to [std::cerr] at line 199. *)
Definition mismatch_message (i : Z) (cpu kernel : float) : string :=
  "Mismatch found at index " +:+ show_int i
    +:+ ": CPU=" +:+ show_float cpu
    +:+ ", Kernel=" +:+ show_float kernel +:+ endl.

(** Lines 195-202: the loop that sets [manual_match]; the value returned
    is [manual_match] after the loop. *)
Fixpoint compare_results (count : nat) (i : Z)
    (cpu_result kernel_result_manual : list float) : Proc bool :=
  match count with
  | O => pret true
  | S count' =>
      a <- element CpuResult cpu_result i ;;
      b <- element KernelResult kernel_result_manual i ;;
      _ <- (Value tt, [Compared i]) ;;
      if float_ne a b then
        _ <- print Cerr (mismatch_message i a b) ;;
        pret false
      else compare_results count' (i + 1) cpu_result kernel_result_manual
  end.

(** [main]: [return] is the value of the computation, [exit] (inside
    [CL_CHECK]) ends it.  The check of clEnqueueReadImage spans lines 188
    and 189; [__LINE__] is the line of the macro name, 188.  The six clRelease calls of lines 215-220 come last; their
    statuses are discarded and they print nothing, so they leave no trace
    here. *)
Definition main (env : Env) : Proc Z :=
  cpu_result <- lift_result cpu_result ;;
  _ <- CL_CHECK (clGetPlatformIDs env) (clGetPlatformIDs_again env) 110 ;;
  _ <- CL_CHECK (clGetDeviceIDs env) (clGetDeviceIDs_again env) 111 ;;
  _ <- CL_CHECK (clCreateContext env) (clCreateContext env) 115 ;;
  _ <- CL_CHECK (clCreateCommandQueue env) (clCreateCommandQueue env) 117 ;;
  if negb (kernel_file_is_open env) then
    _ <- print Cerr ("Could not open kernel file sampler_test.cl" +:+ endl) ;;
    pret 1
  else
  _ <- CL_CHECK (clCreateProgramWithSource env) (clCreateProgramWithSource env) 130 ;;
  if negb (clBuildProgram env =? CL_SUCCESS) then
    _ <- CL_CHECK (clGetProgramBuildInfo_size env) (clGetProgramBuildInfo_size_again env) 136 ;;
    _ <- CL_CHECK (clGetProgramBuildInfo_log env) (clGetProgramBuildInfo_log_again env) 138 ;;
    _ <- print Cerr (build_error_message (build_log env)) ;;
    pret 1
  else
  _ <- CL_CHECK (clCreateKernel env) (clCreateKernel env) 145 ;;
  _ <- CL_CHECK (clCreateImage_in env) (clCreateImage_in env) 163 ;;
  _ <- CL_CHECK (clCreateImage_out env) (clCreateImage_out env) 173 ;;
  _ <- CL_CHECK (clSetKernelArg_0 env) (clSetKernelArg_0_again env) 176 ;;
  _ <- CL_CHECK (clSetKernelArg_1 env) (clSetKernelArg_1_again env) 177 ;;
  _ <- CL_CHECK (clSetKernelArg_2 env) (clSetKernelArg_2_again env) 178 ;;
  _ <- CL_CHECK (clEnqueueNDRangeKernel env) (clEnqueueNDRangeKernel_again env) 182 ;;
  _ <- CL_CHECK (clEnqueueReadImage env) (clEnqueueReadImage_again env) 188 ;;
  let kernel_result_manual := kernel_result_manual env in
  _ <- CL_CHECK (clFinish env) (clFinish_again env) 192 ;;
  manual_match <- compare_results (Z.to_nat output_size) 0
                    cpu_result kernel_result_manual ;;
  _ <- print Cout (endl +:+ "--- Results Comparison ---" +:+ endl) ;;
  _ <- print Cout ("CPU vs. Manual Mirrored Kernel: "
                     +:+ (if manual_match then "PASS" else "FAIL") +:+ endl) ;;
  _ <- print Cout ("CPU Result:" +:+ endl) ;;
  _ <- printMatrix show_float cpu_result output_width output_height ;;
  _ <- print Cout (endl +:+ "Kernel Result:" +:+ endl) ;;
  _ <- printMatrix show_float kernel_result_manual
         output_width output_height ;;
  pret 0.

(** The exit status of the process: the value [main] returns, or the
    argument of [exit]; a fault has none. *)
Definition exit_code (r : Proc Z) : option Z :=
  match fst r with
  | Value c => Some c
  | Exited c => Some c
  | Faulted _ => None
  end.
End Harness.

(** Every checked call succeeds, the kernel file opens and the program
    builds. *)
Definition setup_succeeds (env : Env) : bool :=
  (clGetPlatformIDs env =? CL_SUCCESS) && (clGetDeviceIDs env =? CL_SUCCESS)
  && (clCreateContext env =? CL_SUCCESS)
  && (clCreateCommandQueue env =? CL_SUCCESS)
  && kernel_file_is_open env
  && (clCreateProgramWithSource env =? CL_SUCCESS)
  && (clBuildProgram env =? CL_SUCCESS)
  && (clCreateKernel env =? CL_SUCCESS)
  && (clCreateImage_in env =? CL_SUCCESS)
  && (clCreateImage_out env =? CL_SUCCESS)
  && (clSetKernelArg_0 env =? CL_SUCCESS) && (clSetKernelArg_1 env =? CL_SUCCESS)
  && (clSetKernelArg_2 env =? CL_SUCCESS)
  && (clEnqueueNDRangeKernel env =? CL_SUCCESS)
  && (clEnqueueReadImage env =? CL_SUCCESS)
  && (clFinish env =? CL_SUCCESS).

(** The index expressions of line 47 read as pure values: the mirrored
    coordinate of one axis, and the element of [src_data] that the pixel
    [(x_out, y_out)] reads. *)
Definition mirror_index (extent shifted : Z) : Z :=
  match mirror_axis extent shifted with inr i => i | inl _ => 0 end.

Definition source_index (src_w src_h offset_x offset_y y_out x_out : Z) : Z :=
  int_add
    (int_mul (mirror_index src_h (int_sub y_out (static_cast_int offset_y)))
             src_w)
    (mirror_index src_w (int_sub x_out (static_cast_int offset_x))).

(** Postcondition of a run in the store monad: [Q] on the value and store
    of a completed run, [F] on the fault of an aborted one. *)
Definition ensures {A X} (Q : X -> store A -> Prop) (F : fault -> Prop)
    (r : result (X * store A)) : Prop :=
  match r with
  | inl f => F f
  | inr (x, st) => Q x st
  end.

(** The accesses of a complete run over the first [n] pixels, row-major:
    pixel [k] reads its source element and then writes element [k]. *)
Definition pixel_accesses (src_w src_h dst_w offset_x offset_y : Z)
    (n : Z) : list access :=
  seqZ 0 n ≫= fun k =>
    [ReadSrc (source_index src_w src_h offset_x offset_y
                (k / dst_w) (k mod dst_w));
     WriteDst k].

(** The store after the first [k] pixels (row-major) of a run that started
    with the buffers [src] and [dst0] and the trace [t0]. *)
Definition filled {A} (src dst0 : list A) (t0 : list access)
    (src_w src_h dst_w offset_x offset_y : Z) (k : Z) (st : store A) : Prop :=
  src_data st = src /\
  length (dst_data st) = length dst0 /\
  trace st = t0 ++ pixel_accesses src_w src_h dst_w offset_x offset_y k /\
  forall j : nat,
    dst_data st !! j =
      if decide (Z.of_nat j < k)
      then src !! Z.to_nat (source_index src_w src_h offset_x offset_y
                              (Z.of_nat j / dst_w) (Z.of_nat j mod dst_w))
      else dst0 !! j.


(** [cpu_result[j] == kernel_result_manual[j]]: both elements exist and
    the [!=] of line 197 is false on them. *)
Definition equal_at (cpu_result kernel_result_manual : list float) (j : Z)
    : Prop :=
  exists a b, vec_index cpu_result j = Some a /\
              vec_index kernel_result_manual j = Some b /\
              float_ne a b = false.

(** The contents of [cpu_result] in [main] (the call does not fault, see
    [cpu_result_eq]). *)
Definition expected_buffer : list float :=
  match cpu_result with inr l => l | inl _ => [] end.

(** A statement that runs to its end (no [exit], no fault). *)
Definition completes (m : Proc unit) : Prop :=
  exists es, m = (Value tt, es).

(** An environment in which everything succeeds and the device returns an
    image of zeros, which the comparison rejects. *)
Definition env_zero_image : Env :=
  Build_Env 0 0 0 0 true 0 0 0 0 (Some "") 0 0 0 0 0 0 0 0 0
    (fun _ => float_zero) 0 0 0 0 0 0 0 0 0 0.

(** The width of the columns of [printMatrix]: the local [maxWidth] of
    lines 55-60. *)
Definition max_text_width {T} (show : T -> string) (mat : list T) : nat :=
  foldl (fun w val => Nat.max w (String.length (show val))) 0%nat mat.

(** What a run has put on [std::cout], as one text. *)
Definition cout_text (es : list event) : string :=
  String.concat "" (text_of Cout es).

(** A run that touched nothing but [std::cout]. *)
Definition cout_only (es : list event) : Prop :=
  Forall (fun e => exists t, e = Print Cout t) es.

(** A value that is not a NaN. *)
Definition not_nan (x : float) : Prop := x <> S754_nan.

(** The two loop bodies of [printMatrix], named: one cell (lines 66-67)
    and one row (lines 64-71). *)
Definition print_cell {T} (show : T -> string) (mat : list T)
    (width : Z) (maxWidth : nat) (y x : Z) : Proc unit :=
  let i := wrap_size (wrap_size (y * width) + x) in
  val <- lift_result
           (match mat !! Z.to_nat i with
            | Some v => inr v
            | None => inl (OutOfRange Mat i)
            end) ;;
  _ <- print Cout (setw maxWidth (show val)) ;;
  if wrap_size (x + 1) <? width then print Cout " " else pret tt.

Definition print_row {T} (show : T -> string) (mat : list T)
    (width height : Z) (maxWidth : nat) (y : Z) : Proc unit :=
  _ <- print Cout " [" ;;
  _ <- proc_for (Z.to_nat width) 0 (print_cell show mat width maxWidth y) ;;
  _ <- print Cout "]" ;;
  _ <- (if wrap_size (y + 1) <? height then print Cout "," else pret tt) ;;
  print Cout endl.

(** The grid as a text: row [y] holds the elements
    [y*width, ..., y*width + width - 1] of the matrix, each right-adjusted
    to the common width, separated by single spaces, between " [" and "]";
    the rows are separated by a comma and a newline, the last one is
    followed by a newline, and the whole stands between "[" and "]". *)
Definition grid_row {T} (show : T -> string) (mat : list T)
    (width : Z) (y : Z) : string :=
  " [" +:+
  String.concat " "
    ((fun v => setw (max_text_width show mat) (show v))
       <$> take (Z.to_nat width) (drop (Z.to_nat (y * width)) mat))
  +:+ "]".

Definition grid_text {T} (show : T -> string) (mat : list T)
    (width height : Z) : string :=
  ("[" +:+ endl) +:+
  String.concat ("," +:+ endl) (grid_row show mat width <$> seqZ 0 height)
  +:+ (if 0 <? height then endl else "") +:+ ("]" +:+ endl).

(** An environment in which the first OpenCL call fails. *)
Definition env_no_platform : Env :=
  Build_Env (-1) 0 0 0 true 0 0 0 0 (Some "") 0 0 0 0 0 0 0 0 0
    (fun _ => float_zero) (-1) 0 0 0 0 0 0 0 0 0.

(** A text for every number, for the examples: one or two characters. *)
Definition show_small (n : Z) : string := if n <? 10 then "7" else "10".

(* ===================================================================== *)
(** * Properties *)
(* ===================================================================== *)

(** ** Arithmetic of [int] *)

Lemma wrap_int_is_int z : is_int (wrap_int z).
Proof.
  unfold is_int, wrap_int, INT_MIN, INT_MAX.
  pose proof (Z.mod_pos_bound (z - -2147483648) 4294967296 eq_refl). lia.
Qed.

Lemma wrap_int_shift z k :
  is_int (z + k * 4294967296) -> wrap_int z = z + k * 4294967296.
Proof.
  unfold is_int, wrap_int, INT_MIN, INT_MAX. intros H.
  replace (z - -2147483648)
    with ((z + k * 4294967296 - -2147483648) + (- k) * 4294967296) by lia.
  rewrite Z.mod_add by lia. rewrite Z.mod_small; lia.
Qed.

Lemma wrap_int_id z : is_int z -> wrap_int z = z.
Proof. intros H. rewrite (wrap_int_shift z 0); [lia | now rewrite Z.add_0_r]. Qed.

Lemma wrap_int_congr z : exists k, wrap_int z = z + k * 4294967296.
Proof.
  unfold wrap_int, INT_MIN.
  exists (- ((z - -2147483648) / 4294967296)).
  pose proof (Z.div_mod (z - -2147483648) 4294967296). lia.
Qed.

(** [-x - 1] on a negative [int] never leaves [int], even at [INT_MIN],
    where [-x] wraps. *)
Lemma prime_of_negative s :
  is_int s -> s < 0 -> int_sub (int_neg s) 1 = - s - 1.
Proof.
  intros Hs Hneg. unfold int_sub, int_neg.
  destruct (wrap_int_congr (- s)) as [k Hk]. rewrite Hk.
  rewrite (wrap_int_shift _ (- k)); unfold is_int, INT_MIN, INT_MAX in *; lia.
Qed.

Lemma int_rem_nonneg a b :
  0 <= a -> b <> 0 -> b <> -1 ->
  exists r, int_rem a b = inr r /\ 0 <= r < Z.abs b /\ r = a mod Z.abs b.
Proof.
  intros Ha Hb Hb'. unfold int_rem.
  destruct (b =? 0) eqn:E0; [lia|].
  destruct (b =? -1) eqn:E1; [lia|].
  rewrite andb_false_r. simpl.
  exists (Z.rem a b). split; [reflexivity|].
  assert (Z.rem a b = a mod Z.abs b) as ->.
  { destruct (Z.abs_spec b) as [[Hp ->]|[Hn ->]].
    - apply Z.rem_mod_nonneg; lia.
    - rewrite <- (Z.rem_opp_r a b) by lia. apply Z.rem_mod_nonneg; lia. }
  split; [|reflexivity]. apply Z.mod_pos_bound. lia.
Qed.

(** ** One axis *)

(** Whatever the extent, the mirrored index is defined and inside the
    extent; this holds in the wrapped arithmetic too. *)
Lemma mirror_axis_defined extent shifted :
  0 < extent <= INT_MAX -> is_int shifted ->
  exists i, mirror_axis extent shifted = inr i /\ 0 <= i < extent.
Proof.
  intros He Hs. unfold mirror_axis.
  set (prime := if shifted <? 0 then _ else _).
  assert (Hp : 0 <= prime <= INT_MAX).
  { subst prime. destruct (shifted <? 0) eqn:E.
    - rewrite prime_of_negative by (auto; lia).
      unfold is_int, INT_MIN, INT_MAX in *. lia.
    - unfold is_int, INT_MAX in *. lia. }
  destruct (wrap_int_congr (extent * 2)) as [k Hk].
  pose proof (wrap_int_is_int (extent * 2)) as Hm.
  fold (int_mul extent 2) in Hk, Hm.
  destruct (int_rem_nonneg prime (int_mul extent 2)) as (r & -> & Hr & _).
  { lia. }
  { unfold is_int, INT_MIN, INT_MAX in *. lia. }
  { unfold is_int, INT_MIN, INT_MAX in *. lia. }
  eexists. split; [reflexivity|].
  destruct (r <? extent) eqn:E; [lia|].
  unfold int_sub.
  destruct (wrap_int_congr (int_mul extent 2 - 1)) as [k1 Hk1]. rewrite Hk1.
  assert (Hgoal : 0 <= 2 * extent - 1 - r < extent).
  { unfold is_int, INT_MIN, INT_MAX in *. lia. }
  rewrite (wrap_int_shift _ (- k1 - k)).
  - lia.
  - unfold is_int, INT_MIN, INT_MAX in *. lia.
Qed.

(** Where [extent * 2] fits in [int], the source computes the index of the
    specification. *)
Lemma mirror_axis_exact extent shifted :
  0 < extent -> 2 * extent <= INT_MAX -> is_int shifted ->
  mirror_axis extent shifted = inr (Spec.src_index extent shifted).
Proof.
  intros He H2 Hs. unfold mirror_axis, Spec.src_index, Spec.mod2s, Spec.prime.
  assert (Hm : int_mul extent 2 = 2 * extent).
  { unfold int_mul. rewrite wrap_int_id; unfold is_int, INT_MIN, INT_MAX in *; lia. }
  rewrite Hm.
  assert (Hp : (if shifted <? 0 then int_sub (int_neg shifted) 1 else shifted)
               = (if 0 <=? shifted then shifted else - shifted - 1)).
  { destruct (shifted <? 0) eqn:E; destruct (0 <=? shifted) eqn:E'; try lia.
    apply prime_of_negative; auto; lia. }
  rewrite Hp. set (prime := if 0 <=? shifted then _ else _).
  assert (Hp0 : 0 <= prime <= INT_MAX).
  { subst prime. unfold is_int, INT_MIN, INT_MAX in *.
    destruct (0 <=? shifted) eqn:E; lia. }
  destruct (int_rem_nonneg prime (2 * extent)) as (r & -> & Hr & Hrm);
    [lia | lia | lia |].
  rewrite Z.abs_eq in Hr, Hrm by lia. rewrite <- Hrm.
  destruct (r <? extent) eqn:E; [reflexivity|].
  unfold int_sub. f_equal.
  rewrite (wrap_int_id (2 * extent - 1)); [apply wrap_int_id|];
    unfold is_int, INT_MIN, INT_MAX in *; lia.
Qed.

(** ** The loops *)

(** The rule of the counted loop: an invariant indexed by the counter. *)
Lemma for_loop_rule {A} (I : Z -> store A -> Prop) (F : fault -> Prop)
    (body : Z -> M A unit) (n : nat) :
  forall k,
    (forall i st, k <= i < k + Z.of_nat n -> I i st ->
                  ensures (fun _ => I (i + 1)) F (body i st)) ->
    forall st, I k st ->
      ensures (fun _ => I (k + Z.of_nat n)) F (for_loop n k body st).
Proof.
  induction n as [|n IH]; intros k Hbody st Hst.
  - simpl. now rewrite Z.add_0_r.
  - simpl. unfold bind.
    pose proof (Hbody k st ltac:(lia) Hst) as Hstep.
    destruct (body k st) as [f|[[] st1]]; simpl in *; [assumption|].
    replace (k + Z.of_nat (S n)) with ((k + 1) + Z.of_nat n) by lia.
    apply IH; [|assumption].
    intros i st' Hi. apply Hbody. lia.
Qed.

Lemma row_major_div_mod w y x :
  0 <= x < w -> (y * w + x) / w = y /\ (y * w + x) mod w = x.
Proof.
  intros Hx. split.
  - rewrite Z.div_add_l by lia. rewrite Z.div_small; lia.
  - rewrite Z.add_comm, Z.mod_add by lia. apply Z.mod_small; lia.
Qed.

Lemma vec_index_Some {A} (v : list A) i :
  0 <= i < Z.of_nat (length v) -> is_Some (vec_index v i).
Proof.
  intros Hi. unfold vec_index. destruct (i <? 0) eqn:E; [lia|].
  apply lookup_lt_is_Some_2. lia.
Qed.

Lemma vec_index_lookup {A} (v : list A) i :
  0 <= i -> vec_index v i = v !! Z.to_nat i.
Proof. intros Hi. unfold vec_index. destruct (i <? 0) eqn:E; [lia|done]. Qed.

Lemma vec_index_None {A} (v : list A) i :
  vec_index v i = None -> i < 0 \/ Z.of_nat (length v) <= i.
Proof.
  unfold vec_index. destruct (i <? 0) eqn:E; [lia|].
  intros H%lookup_ge_None. lia.
Qed.

(** The element a pixel reads lies inside a [src_w * src_h] buffer, for
    every output coordinate and every offset. *)
Lemma source_index_spec src_w src_h offset_x offset_y y_out x_out :
  0 < src_w -> 0 < src_h -> src_w * src_h <= INT_MAX ->
  let x_shifted := int_sub x_out (static_cast_int offset_x) in
  let y_shifted := int_sub y_out (static_cast_int offset_y) in
  mirror_axis src_w x_shifted = inr (mirror_index src_w x_shifted) /\
  mirror_axis src_h y_shifted = inr (mirror_index src_h y_shifted) /\
  0 <= mirror_index src_w x_shifted < src_w /\
  0 <= mirror_index src_h y_shifted < src_h /\
  source_index src_w src_h offset_x offset_y y_out x_out
    = mirror_index src_h y_shifted * src_w + mirror_index src_w x_shifted /\
  0 <= source_index src_w src_h offset_x offset_y y_out x_out < src_w * src_h.
Proof.
  intros Hw Hh Hsz x_shifted y_shifted.
  assert (Hwmax : src_w <= INT_MAX) by nia.
  assert (Hhmax : src_h <= INT_MAX) by nia.
  destruct (mirror_axis_defined src_w x_shifted) as (ix & Hix & Hixr);
    [lia | apply wrap_int_is_int |].
  destruct (mirror_axis_defined src_h y_shifted) as (iy & Hiy & Hiyr);
    [lia | apply wrap_int_is_int |].
  assert (Hmx : mirror_index src_w x_shifted = ix)
    by (unfold mirror_index; now rewrite Hix).
  assert (Hmy : mirror_index src_h y_shifted = iy)
    by (unfold mirror_index; now rewrite Hiy).
  assert (Hidx : 0 <= iy * src_w + ix < src_w * src_h) by nia.
  assert (Hsi : source_index src_w src_h offset_x offset_y y_out x_out
                = iy * src_w + ix).
  { unfold source_index. fold x_shifted y_shifted. rewrite Hmx, Hmy.
    unfold int_add, int_mul.
    rewrite (wrap_int_id (iy * src_w));
      [apply wrap_int_id|]; unfold is_int, INT_MIN, INT_MAX in *; nia. }
  rewrite Hmx, Hmy, Hsi. repeat split; auto; lia.
Qed.

(** A pixel reads its source element and hands it to the write. *)
Lemma pixel_run {A} (st : store A) src_w src_h dst_w offset_x offset_y y_out x_out :
  0 < src_w -> 0 < src_h -> src_w * src_h <= INT_MAX ->
  src_w * src_h <= Z.of_nat (length (src_data st)) ->
  let i := source_index src_w src_h offset_x offset_y y_out x_out in
  exists v,
    src_data st !! Z.to_nat i = Some v /\
    pixel src_w src_h dst_w offset_x offset_y y_out x_out st
      = write_dst (int_add (int_mul y_out dst_w) x_out) v
          (Store (src_data st) (dst_data st) (trace st ++ [ReadSrc i])).
Proof.
  intros Hw Hh Hsz Hlen i.
  destruct (source_index_spec src_w src_h offset_x offset_y y_out x_out Hw Hh Hsz)
    as (Hx & Hy & _ & _ & Hsi & Hr).
  fold i in Hr.
  destruct (vec_index_Some (src_data st) i ltac:(lia)) as [v Hv].
  exists v. split; [rewrite <- vec_index_lookup by lia; exact Hv|].
  unfold pixel, bind, lift. rewrite Hx, Hy.
  unfold read_src. fold (source_index src_w src_h offset_x offset_y y_out x_out).
  fold i. now rewrite Hv.
Qed.

Lemma pixel_accesses_succ src_w src_h dst_w offset_x offset_y k :
  0 <= k ->
  pixel_accesses src_w src_h dst_w offset_x offset_y (k + 1)
  = pixel_accesses src_w src_h dst_w offset_x offset_y k
    ++ [ReadSrc (source_index src_w src_h offset_x offset_y
                   (k / dst_w) (k mod dst_w)); WriteDst k].
Proof.
  intros Hk. unfold pixel_accesses.
  rewrite seqZ_app by lia. rewrite bind_app. f_equal.
Qed.

Lemma writes_pixel_accesses src_w src_h dst_w offset_x offset_y (n : nat) :
  writes (pixel_accesses src_w src_h dst_w offset_x offset_y (Z.of_nat n))
  = seqZ 0 (Z.of_nat n).
Proof.
  induction n as [|n IH]; [reflexivity|].
  rewrite Nat2Z.inj_succ, <- Z.add_1_r.
  rewrite pixel_accesses_succ by lia. rewrite seqZ_app by lia.
  unfold writes in *. rewrite omap_app, IH. reflexivity.
Qed.

Lemma reads_pixel_accesses src_w src_h dst_w offset_x offset_y (n : nat) :
  reads (pixel_accesses src_w src_h dst_w offset_x offset_y (Z.of_nat n))
  = (fun k => source_index src_w src_h offset_x offset_y
                (k / dst_w) (k mod dst_w)) <$> seqZ 0 (Z.of_nat n).
Proof.
  induction n as [|n IH]; [reflexivity|].
  rewrite Nat2Z.inj_succ, <- Z.add_1_r.
  rewrite pixel_accesses_succ by lia. rewrite seqZ_app by lia.
  unfold reads in *. rewrite omap_app, IH, fmap_app. reflexivity.
Qed.

(** One pixel extends the filled prefix by one element. *)
Lemma pixel_filled {A} (src dst0 : list A) t0
    src_w src_h dst_w dst_h offset_x offset_y y_out x_out (st : store A) :
  0 < src_w -> 0 < src_h -> src_w * src_h <= INT_MAX ->
  src_w * src_h <= Z.of_nat (length src) ->
  dst_w * dst_h <= INT_MAX -> dst_w * dst_h <= Z.of_nat (length dst0) ->
  0 <= x_out < dst_w -> 0 <= y_out < dst_h ->
  filled src dst0 t0 src_w src_h dst_w offset_x offset_y
         (y_out * dst_w + x_out) st ->
  ensures (fun _ => filled src dst0 t0 src_w src_h dst_w offset_x offset_y
                           (y_out * dst_w + x_out + 1))
          (fun _ => False)
          (pixel src_w src_h dst_w offset_x offset_y y_out x_out st).
Proof.
  intros Hw Hh Hsz Hlen Hdsz Hdlen Hx Hy (Hsrc & Hdl & Htr & Hdst).
  set (k := y_out * dst_w + x_out) in *.
  assert (Hk : 0 <= k < dst_w * dst_h) by (subst k; nia).
  destruct (pixel_run st src_w src_h dst_w offset_x offset_y y_out x_out)
    as (v & Hv & ->); auto; [rewrite Hsrc; lia|].
  assert (Hwi : int_add (int_mul y_out dst_w) x_out = k).
  { unfold int_add, int_mul. subst k.
    rewrite (wrap_int_id (y_out * dst_w));
      [apply wrap_int_id|]; unfold is_int, INT_MIN, INT_MAX in *; nia. }
  rewrite Hwi. unfold write_dst. cbn [src_data dst_data trace].
  destruct (vec_index_Some (dst_data st) k ltac:(lia)) as [old ->].
  cbn [ensures]. unfold filled. cbn [src_data dst_data trace].
  destruct (row_major_div_mod dst_w y_out x_out Hx) as [Hdiv Hmod].
  fold k in Hdiv, Hmod.
  split; [exact Hsrc|]. split; [now rewrite length_insert|]. split.
  - rewrite Htr, pixel_accesses_succ by lia. rewrite Hdiv, Hmod.
    rewrite <- !app_assoc. reflexivity.
  - intros j. destruct (decide (j = Z.to_nat k)) as [->|Hne].
    + rewrite list_lookup_insert_eq by lia.
      rewrite decide_True by lia. rewrite Z2Nat.id by lia.
      rewrite Hdiv, Hmod. rewrite <- Hv, Hsrc. reflexivity.
    + rewrite list_lookup_insert_ne by congruence. rewrite Hdst.
      destruct (decide (Z.of_nat j < k)), (decide (Z.of_nat j < k + 1));
        try reflexivity; lia.
Qed.

(** The two nested loops fill the first [dst_w * dst_h] elements. *)
Lemma cpu_reference_calculation_filled {A} (src dst0 : list A) t0
    src_w src_h dst_w dst_h offset_x offset_y :
  0 < src_w -> 0 < src_h -> src_w * src_h <= INT_MAX ->
  src_w * src_h <= Z.of_nat (length src) ->
  0 <= dst_w -> 0 <= dst_h ->
  dst_w * dst_h <= INT_MAX -> dst_w * dst_h <= Z.of_nat (length dst0) ->
  ensures (fun _ => filled src dst0 t0 src_w src_h dst_w offset_x offset_y
                           (dst_w * dst_h))
          (fun _ => False)
          (cpu_reference_calculation src_w src_h dst_w dst_h offset_x offset_y
             (Store src dst0 t0)).
Proof.
  intros Hw Hh Hsz Hlen Hdw Hdh Hdsz Hdlen.
  unfold cpu_reference_calculation.
  replace (dst_w * dst_h) with ((0 + Z.of_nat (Z.to_nat dst_h)) * dst_w)
    by lia.
  pose (I := fun y st =>
    filled src dst0 t0 src_w src_h dst_w offset_x offset_y (y * dst_w) st).
  change (ensures (fun _ => I (0 + Z.of_nat (Z.to_nat dst_h))) (fun _ => False)
            (for_loop (Z.to_nat dst_h) 0
               (fun y_out => for_loop (Z.to_nat dst_w) 0
                  (fun x_out => pixel src_w src_h dst_w offset_x offset_y
                                      y_out x_out))
               (Store src dst0 t0))).
  apply for_loop_rule.
  - intros y st Hy Hst. subst I. cbn beta in *.
    replace ((y + 1) * dst_w) with (y * dst_w + (0 + Z.of_nat (Z.to_nat dst_w)))
      by lia.
    apply (for_loop_rule (fun x => filled src dst0 t0 src_w src_h dst_w
                                     offset_x offset_y (y * dst_w + x))).
    + intros x st' Hx Hst'. rewrite Z.add_assoc.
      apply (pixel_filled src dst0 t0 src_w src_h dst_w dst_h); auto; lia.
    + now rewrite Z.add_0_r.
  - subst I. cbn beta. unfold filled. cbn [src_data dst_data trace].
    repeat split; auto.
    + now rewrite app_nil_r.
    + intros j. rewrite decide_False by lia. reflexivity.
Qed.

(** A complete run, read off the invariant. *)
Lemma cpu_reference_calculation_completes {A} (src dst0 : list A) t0
    src_w src_h dst_w dst_h offset_x offset_y :
  0 < src_w -> 0 < src_h -> src_w * src_h <= INT_MAX ->
  src_w * src_h <= Z.of_nat (length src) ->
  0 <= dst_w -> 0 <= dst_h ->
  dst_w * dst_h <= INT_MAX -> dst_w * dst_h <= Z.of_nat (length dst0) ->
  exists st,
    cpu_reference_calculation src_w src_h dst_w dst_h offset_x offset_y
      (Store src dst0 t0) = inr (tt, st) /\
    filled src dst0 t0 src_w src_h dst_w offset_x offset_y (dst_w * dst_h) st.
Proof.
  intros Hw Hh Hsz Hlen Hdw Hdh Hdsz Hdlen.
  pose proof (cpu_reference_calculation_filled src dst0 t0 src_w src_h
                dst_w dst_h offset_x offset_y Hw Hh Hsz Hlen Hdw Hdh Hdsz Hdlen)
    as H.
  destruct (cpu_reference_calculation _ _ _ _ _ _ _) as [f|[[] st]];
    simpl in H; [contradiction|].
  exists st. split; [reflexivity | exact H].
Qed.

(** The only fault a pixel can raise is an out-of-range write; the reads
    stay inside the source whatever the destination and the offset are. *)
Lemma pixel_reads_in_range {A} (src : list A)
    src_w src_h dst_w offset_x offset_y y_out x_out (st : store A) :
  0 < src_w -> 0 < src_h -> src_w * src_h <= INT_MAX ->
  src_w * src_h <= Z.of_nat (length src) ->
  src_data st = src /\
    Forall (fun i => 0 <= i < src_w * src_h) (reads (trace st)) ->
  ensures (fun _ st' => src_data st' = src /\
             Forall (fun i => 0 <= i < src_w * src_h) (reads (trace st')))
          (fun f => exists i, f = OutOfRange DstData i)
          (pixel src_w src_h dst_w offset_x offset_y y_out x_out st).
Proof.
  intros Hw Hh Hsz Hlen [Hsrc Hreads].
  destruct (pixel_run st src_w src_h dst_w offset_x offset_y y_out x_out)
    as (v & Hv & ->); auto; [rewrite Hsrc; lia|].
  unfold write_dst. cbn [src_data dst_data trace].
  destruct (vec_index (dst_data st) _) as [old|]; cbn [ensures]; [|eauto].
  cbn [src_data trace]. split; [exact Hsrc|].
  unfold reads in *. rewrite !omap_app. cbn [omap list_omap app].
  rewrite app_nil_r. apply Forall_app. split; [exact Hreads|].
  repeat constructor;
    apply (source_index_spec src_w src_h offset_x offset_y y_out x_out);
    assumption.
Qed.

Lemma cpu_reference_calculation_reads_in_range {A} (src dst : list A)
    src_w src_h dst_w dst_h offset_x offset_y :
  0 < src_w -> 0 < src_h -> src_w * src_h <= INT_MAX ->
  src_w * src_h <= Z.of_nat (length src) ->
  ensures (fun _ st' => src_data st' = src /\
             Forall (fun i => 0 <= i < src_w * src_h) (reads (trace st')))
          (fun f => exists i, f = OutOfRange DstData i)
          (cpu_reference_calculation src_w src_h dst_w dst_h offset_x offset_y
             (Store src dst [])).
Proof.
  intros Hw Hh Hsz Hlen. unfold cpu_reference_calculation.
  apply (for_loop_rule (fun _ st' => src_data st' = src /\
           Forall (fun i => 0 <= i < src_w * src_h) (reads (trace st')))).
  - intros y st _ Hst.
    apply (for_loop_rule (fun _ st' => src_data st' = src /\
             Forall (fun i => 0 <= i < src_w * src_h) (reads (trace st'))));
      [|exact Hst].
    intros x st' _ Hst'. now apply pixel_reads_in_range.
  - split; [reflexivity | constructor].
Qed.

(** With offset 0 and both extents doubled inside [int], a coordinate inside
    the source is its own mirror image. *)
Lemma mirror_index_inside extent x :
  0 < extent -> 2 * extent <= INT_MAX -> 0 <= x < extent ->
  mirror_index extent (int_sub x (static_cast_int 0)) = x.
Proof.
  intros He H2 Hx.
  assert (Hs : int_sub x (static_cast_int 0) = x).
  { unfold int_sub, static_cast_int. rewrite (wrap_int_id 0);
      [rewrite Z.sub_0_r; apply wrap_int_id|];
      unfold is_int, INT_MIN, INT_MAX in *; lia. }
  rewrite Hs. unfold mirror_index.
  rewrite mirror_axis_exact; auto;
    [|unfold is_int, INT_MIN, INT_MAX in *; lia].
  unfold Spec.src_index, Spec.mod2s, Spec.prime.
  destruct (0 <=? x) eqn:E; [|lia].
  rewrite Z.mod_small by lia.
  destruct (x <? extent) eqn:E'; lia.
Qed.

(** Where nothing wraps, the element a pixel reads is the one the
    specification names. *)
Lemma source_index_exact src_w src_h offset_x offset_y y_out x_out :
  0 < src_w -> 0 < src_h ->
  2 * src_w <= INT_MAX -> 2 * src_h <= INT_MAX -> src_w * src_h <= INT_MAX ->
  is_int (x_out - static_cast_int offset_x) ->
  is_int (y_out - static_cast_int offset_y) ->
  source_index src_w src_h offset_x offset_y y_out x_out
  = Spec.src_index src_h (y_out - static_cast_int offset_y) * src_w
    + Spec.src_index src_w (x_out - static_cast_int offset_x).
Proof.
  intros Hw Hh H2w H2h Hsz Hx Hy.
  destruct (source_index_spec src_w src_h offset_x offset_y y_out x_out Hw Hh Hsz)
    as (_ & _ & _ & _ & -> & _).
  unfold mirror_index, int_sub.
  rewrite (wrap_int_id _ Hx), (wrap_int_id _ Hy).
  rewrite (mirror_axis_exact src_w) by assumption.
  rewrite (mirror_axis_exact src_h) by assumption. reflexivity.
Qed.

(** ** The reference evaluator: claims *)

(** C1. For an output coordinate inside the destination and a source of
    positive extents, [cpu_reference_calculation] completes and leaves in
    destination element [y_out*dst_w + x_out] the source element
    [y_src*src_w + x_src], where each axis is mirrored by the steps of the
    specification ([Spec.src_index]: prime, mod2s, fold) applied to
    [shifted = out - offset], the offset being read as an [int]
    ([static_cast<int>], the identity up to [INT_MAX]).  The hypotheses on
    [INT_MAX] say that the [int] expressions of the source do not overflow. *)
Theorem cpu_reference_calculation_mirrors {A} (src dst : list A)
    (src_w src_h dst_w dst_h offset_x offset_y x_out y_out : Z) :
  0 < src_w -> 0 < src_h ->
  2 * src_w <= INT_MAX -> 2 * src_h <= INT_MAX ->
  Z.of_nat (length src) = src_w * src_h -> src_w * src_h <= INT_MAX ->
  Z.of_nat (length dst) = dst_w * dst_h -> dst_w * dst_h <= INT_MAX ->
  0 <= x_out < dst_w -> 0 <= y_out < dst_h ->
  let x_shifted := x_out - static_cast_int offset_x in
  let y_shifted := y_out - static_cast_int offset_y in
  is_int x_shifted -> is_int y_shifted ->
  let x_src := Spec.src_index src_w x_shifted in
  let y_src := Spec.src_index src_h y_shifted in
  exists dst' v,
    call_cpu_reference_calculation src dst src_w src_h dst_w dst_h
      offset_x offset_y = inr dst' /\
    vec_index src (y_src * src_w + x_src) = Some v /\
    vec_index dst' (y_out * dst_w + x_out) = Some v /\
    (0 <= offset_x <= INT_MAX -> x_shifted = x_out - offset_x) /\
    (0 <= offset_y <= INT_MAX -> y_shifted = y_out - offset_y).
Proof.
  intros Hw Hh H2w H2h Hlen Hsz Hdlen Hdsz Hx Hy x_shifted y_shifted
         Hxs Hys x_src y_src.
  destruct (cpu_reference_calculation_completes src dst [] src_w src_h
              dst_w dst_h offset_x offset_y) as (st & Hrun & Hfill);
    try lia.
  destruct Hfill as (_ & _ & _ & Hdst).
  set (k := y_out * dst_w + x_out).
  assert (Hk : 0 <= k < dst_w * dst_h) by (subst k; nia).
  destruct (row_major_div_mod dst_w y_out x_out Hx) as [Hdiv Hmod].
  fold k in Hdiv, Hmod.
  pose proof (source_index_spec src_w src_h offset_x offset_y y_out x_out
                Hw Hh Hsz) as (_ & _ & _ & _ & _ & Hr).
  pose proof (source_index_exact src_w src_h offset_x offset_y y_out x_out
                Hw Hh H2w H2h Hsz Hxs Hys) as Hex.
  fold x_shifted y_shifted x_src y_src in Hex. rewrite Hex in Hr.
  destruct (vec_index_Some src (y_src * src_w + x_src) ltac:(lia)) as [v Hv].
  exists (dst_data st), v.
  unfold call_cpu_reference_calculation. rewrite Hrun.
  split; [reflexivity|]. split; [exact Hv|]. split.
  - rewrite vec_index_lookup by lia. rewrite Hdst.
    rewrite decide_True by lia. rewrite Z2Nat.id by lia.
    rewrite Hdiv, Hmod, Hex. rewrite <- vec_index_lookup by lia. exact Hv.
  - subst x_shifted y_shifted. unfold static_cast_int.
    split; intros Ho; rewrite wrap_int_id; auto;
      unfold is_int, INT_MIN, INT_MAX in *; lia.
Qed.

(** C2. For every extent [e > 0] and every shifted coordinate [s] (both of
    type [int]) the mirrored index is defined and lies in [0, e).
    Consequently, for every destination size and every offset, a run of
    [cpu_reference_calculation] on a [src_w * src_h] source never faults on a
    source read (a read outside the vector would be the fault
    [OutOfRange SrcData]; the only fault left is a write outside a
    destination that is too small), and every source index it reads lies in
    [0, src_w*src_h). *)
Theorem source_reads_in_range {A} (src dst : list A)
    (extent shifted src_w src_h dst_w dst_h offset_x offset_y : Z) :
  0 < extent <= INT_MAX -> is_int shifted ->
  0 < src_w -> 0 < src_h ->
  Z.of_nat (length src) = src_w * src_h -> src_w * src_h <= INT_MAX ->
  (exists i, mirror_axis extent shifted = inr i /\ 0 <= i < extent) /\
  ensures (fun _ st' =>
             Forall (fun i => 0 <= i < src_w * src_h) (reads (trace st')))
          (fun f => exists i, f = OutOfRange DstData i)
          (cpu_reference_calculation src_w src_h dst_w dst_h offset_x offset_y
             (Store src dst [])).
Proof.
  intros He Hs Hw Hh Hlen Hsz. split.
  - now apply mirror_axis_defined.
  - pose proof (cpu_reference_calculation_reads_in_range src dst src_w src_h
                  dst_w dst_h offset_x offset_y Hw Hh Hsz ltac:(lia)) as H.
    destruct (cpu_reference_calculation _ _ _ _ _ _ _) as [f|[[] st]];
      simpl in *; [exact H | apply H].
Qed.

(** C5. With offset (0,0) and a destination of the dimensions of the source,
    the destination buffer after the call is the source buffer. *)
Theorem identity_case {A} (src dst : list A) (w h : Z) :
  0 < w -> 0 < h -> 2 * w <= INT_MAX -> 2 * h <= INT_MAX ->
  w * h <= INT_MAX ->
  Z.of_nat (length src) = w * h -> Z.of_nat (length dst) = w * h ->
  call_cpu_reference_calculation src dst w h w h 0 0 = inr src.
Proof.
  intros Hw Hh H2w H2h Hsz Hlen Hdlen.
  destruct (cpu_reference_calculation_completes src dst [] w h w h 0 0)
    as (st & Hrun & _ & Hl & _ & Hdst); try lia.
  unfold call_cpu_reference_calculation. rewrite Hrun. f_equal.
  apply list_eq. intros j. rewrite Hdst.
  destruct (decide (Z.of_nat j < w * h)) as [Hj|Hj].
  - assert (Hy : 0 <= Z.of_nat j / w < h).
    { split; [apply Z.div_pos; lia|].
      apply Z.div_lt_upper_bound; lia. }
    assert (Hx : 0 <= Z.of_nat j mod w < w) by (apply Z.mod_pos_bound; lia).
    destruct (source_index_spec w h 0 0 (Z.of_nat j / w) (Z.of_nat j mod w)
                Hw Hh Hsz) as (_ & _ & _ & _ & -> & _).
    rewrite !mirror_index_inside by assumption.
    replace (Z.of_nat j / w * w + Z.of_nat j mod w) with (Z.of_nat j)
      by (pose proof (Z.div_mod (Z.of_nat j) w); lia).
    now rewrite Nat2Z.id.
  - rewrite !lookup_ge_None_2 by lia. reflexivity.
Qed.

(** C9. The evaluator is a function of the source data, the dimensions and
    the offset alone: two calls that agree on these produce the same
    destination buffer, whatever the destination buffers held before.  It
    is total: on every extent [e > 0] and every shifted coordinate of type
    [int] the mirroring is defined (no division by zero), and the call
    completes. *)
Theorem evaluator_deterministic_and_total {A} (src dst1 dst2 : list A)
    (extent shifted src_w src_h dst_w dst_h offset_x offset_y : Z) :
  0 < extent <= INT_MAX -> is_int shifted ->
  0 < src_w -> 0 < src_h ->
  Z.of_nat (length src) = src_w * src_h -> src_w * src_h <= INT_MAX ->
  0 <= dst_w -> 0 <= dst_h -> dst_w * dst_h <= INT_MAX ->
  Z.of_nat (length dst1) = dst_w * dst_h ->
  Z.of_nat (length dst2) = dst_w * dst_h ->
  (exists i, mirror_axis extent shifted = inr i) /\
  exists out,
    call_cpu_reference_calculation src dst1 src_w src_h dst_w dst_h
      offset_x offset_y = inr out /\
    call_cpu_reference_calculation src dst2 src_w src_h dst_w dst_h
      offset_x offset_y = inr out.
Proof.
  intros He Hs Hw Hh Hlen Hsz Hdw Hdh Hdsz Hl1 Hl2. split.
  - destruct (mirror_axis_defined extent shifted He Hs) as (i & Hi & _).
    now exists i.
  - destruct (cpu_reference_calculation_completes src dst1 [] src_w src_h
                dst_w dst_h offset_x offset_y)
      as (st1 & Hrun1 & _ & _ & _ & Hd1); try lia.
    destruct (cpu_reference_calculation_completes src dst2 [] src_w src_h
                dst_w dst_h offset_x offset_y)
      as (st2 & Hrun2 & _ & _ & _ & Hd2); try lia.
    exists (dst_data st1). unfold call_cpu_reference_calculation.
    rewrite Hrun1, Hrun2. split; [reflexivity|]. f_equal.
    apply list_eq. intros j. rewrite Hd1, Hd2.
    destruct (decide (Z.of_nat j < dst_w * dst_h)); [reflexivity|].
    rewrite !lookup_ge_None_2 by lia. reflexivity.
Qed.

(** C10. A call leaves the source buffer as it was; the elements it assigns
    are those of index 0, 1, ..., dst_w*dst_h - 1 of the destination, each
    once (in this order); the destination keeps its length and whatever it
    holds from index dst_w*dst_h on.  The store has no other component. *)
Theorem cpu_reference_calculation_frame {A} (src dst : list A)
    (src_w src_h dst_w dst_h offset_x offset_y : Z) :
  0 < src_w -> 0 < src_h ->
  Z.of_nat (length src) = src_w * src_h -> src_w * src_h <= INT_MAX ->
  0 <= dst_w -> 0 <= dst_h -> dst_w * dst_h <= INT_MAX ->
  dst_w * dst_h <= Z.of_nat (length dst) ->
  exists st,
    cpu_reference_calculation src_w src_h dst_w dst_h offset_x offset_y
      (Store src dst []) = inr (tt, st) /\
    src_data st = src /\
    writes (trace st) = seqZ 0 (dst_w * dst_h) /\
    length (dst_data st) = length dst /\
    forall j : nat, dst_w * dst_h <= Z.of_nat j -> dst_data st !! j = dst !! j.
Proof.
  intros Hw Hh Hlen Hsz Hdw Hdh Hdsz Hdlen.
  destruct (cpu_reference_calculation_completes src dst [] src_w src_h
              dst_w dst_h offset_x offset_y)
    as (st & Hrun & Hsrc & Hl & Htr & Hdst); try lia.
  exists st. repeat split; try assumption.
  - rewrite Htr. cbn [app].
    rewrite <- (Z2Nat.id (dst_w * dst_h)) by nia.
    apply writes_pixel_accesses.
  - intros j Hj. rewrite Hdst. now rewrite decide_False by lia.
Qed.

(** ** The shape of the mirrored index *)

Lemma mod_reflect m p : 0 < m -> (-1 - p) mod m = m - 1 - p mod m.
Proof.
  intros Hm. symmetry. apply (Z.mod_unique _ _ (- (p / m) - 1)).
  - left. pose proof (Z.mod_pos_bound p m Hm). lia.
  - pose proof (Z.div_mod p m ltac:(lia)). lia.
Qed.

(** The index of the specification is the fold of [s mod 2e], for negative
    [s] as well. *)
Lemma spec_src_index_fold e s :
  0 < e ->
  Spec.src_index e s
  = if s mod (2 * e) <? e then s mod (2 * e) else 2 * e - 1 - s mod (2 * e).
Proof.
  intros He. unfold Spec.src_index, Spec.mod2s, Spec.prime.
  destruct (0 <=? s) eqn:E; [reflexivity|].
  replace (- s - 1) with (-1 - s) by lia. rewrite mod_reflect by lia.
  pose proof (Z.mod_pos_bound s (2 * e) ltac:(lia)).
  destruct (s mod (2 * e) <? e) eqn:E1;
    destruct (2 * e - 1 - s mod (2 * e) <? e) eqn:E2; lia.
Qed.



(** C3. The canonical run: the source is 4 x 5 with element [i] equal to
    [(float)i], the destination 12 x 12, the offset (5,2).  Destination
    (0,0) has shifted coordinates (-5,-2), mirrored indices 3 and 1, and the
    expected buffer holds there source element 1*4+3, which is 7. *)
Theorem canonical_run_origin :
  input_width = 4 /\ input_height = 5 /\
  output_width = 12 /\ output_height = 12 /\ offset = (5, 2) /\
  host_input_data = float_of_int <$> seqZ 0 20 /\
  int_sub 0 (static_cast_int (fst offset)) = -5 /\
  int_sub 0 (static_cast_int (snd offset)) = -2 /\
  mirror_axis input_width (-5) = inr 3 /\
  mirror_axis input_height (-2) = inr 1 /\
  vec_index host_input_data (1 * input_width + 3) = Some (float_of_int 7) /\
  exists expected,
    cpu_result = inr expected /\
    length expected = 144%nat /\
    vec_index expected (0 * output_width + 0) = Some (float_of_int 7).
Proof.
  repeat (split; [reflexivity|]).
  eexists. split; [vm_compute; reflexivity|]. split; reflexivity.
Qed.

(** ** The process monad *)

Lemma pbind_Value {X Y} (x : X) (es : list event) (k : X -> Proc Y) :
  pbind (Value x, es) k = (fst (k x), es ++ snd (k x)).
Proof. unfold pbind. now destruct (k x). Qed.

Lemma pbind_pret {X Y} (x : X) (k : X -> Proc Y) : pbind (pret x) k = k x.
Proof. unfold pret. rewrite pbind_Value. now destruct (k x). Qed.

Lemma exit_code_pbind {X} (m : Proc X) (k : X -> Proc Z) :
  exit_code (pbind m k)
  = match fst m with
    | Value x => exit_code (k x)
    | Exited c => Some c
    | Faulted _ => None
    end.
Proof.
  destruct m as [[x|c|f] es]; try reflexivity.
  rewrite pbind_Value. reflexivity.
Qed.

Lemma text_of_app s es1 es2 :
  text_of s (es1 ++ es2) = text_of s es1 ++ text_of s es2.
Proof. unfold text_of. apply omap_app. Qed.

Lemma text_of_Compared s (l : list Z) : text_of s (Compared <$> l) = [].
Proof. induction l as [|i l IH]; [reflexivity|]. destruct s; exact IH. Qed.



(** ** The comparison loop *)

Section Comparison.
Context (show_float : float -> string) (show_int : Z -> string).
Context (cpu kernel : list float).

Lemma compare_results_spec (n : nat) :
  forall i, 0 <= i ->
    i + Z.of_nat n <= Z.of_nat (length cpu) ->
    i + Z.of_nat n <= Z.of_nat (length kernel) ->
    (compare_results show_float show_int n i cpu kernel
       = (Value true, Compared <$> seqZ i (Z.of_nat n)) /\
     forall j, i <= j < i + Z.of_nat n -> equal_at cpu kernel j)
    \/
    (exists j a b,
       i <= j < i + Z.of_nat n /\
       vec_index cpu j = Some a /\ vec_index kernel j = Some b /\
       float_ne a b = true /\
       (forall j', i <= j' < j -> equal_at cpu kernel j') /\
       compare_results show_float show_int n i cpu kernel
         = (Value false,
            (Compared <$> seqZ i (j - i + 1))
              ++ [Print Cerr (mismatch_message show_float show_int j a b)])).
Proof.
  induction n as [|n IH]; intros i Hi Hc Hk.
  - left. split; [reflexivity | intros j Hj; lia].
  - destruct (vec_index_Some cpu i ltac:(lia)) as [a Ha].
    destruct (vec_index_Some kernel i ltac:(lia)) as [b Hb].
    assert (Hstep : compare_results show_float show_int (S n) i cpu kernel
              = if float_ne a b
                then (Value false,
                      [Compared i;
                       Print Cerr (mismatch_message show_float show_int i a b)])
                else (fst (compare_results show_float show_int n (i + 1)
                             cpu kernel),
                      Compared i
                        :: snd (compare_results show_float show_int n (i + 1)
                                  cpu kernel))).
    { cbn [compare_results]. unfold element. rewrite Ha, Hb.
      cbn [lift_result]. rewrite !pbind_Value. cbn [fst snd app].
      destruct (float_ne a b); [reflexivity|].
      now destruct (compare_results _ _ n (i + 1) cpu kernel). }
    rewrite Hstep. destruct (float_ne a b) eqn:Hne.
    + right. exists i, a, b. repeat split; auto; try lia.
      replace (i - i + 1) with 1 by lia. reflexivity.
    + destruct (IH (i + 1) ltac:(lia) ltac:(lia) ltac:(lia))
        as [[Heq Hall]|(j & a' & b' & Hj & Ha' & Hb' & Hne' & Hbefore & Heq)];
        rewrite Heq; cbn [fst snd].
      * left. split.
        -- rewrite (seqZ_cons i) by lia. rewrite fmap_cons.
           repeat f_equal; lia.
        -- intros j Hj. destruct (decide (j = i)) as [->|Hji].
           ++ exists a, b. auto.
           ++ apply Hall. lia.
      * right. exists j, a', b'. repeat split; auto; try lia.
        -- intros j' Hj'. destruct (decide (j' = i)) as [->|Hji].
           ++ exists a, b. auto.
           ++ apply Hbefore. lia.
        -- rewrite (seqZ_cons i (j - i + 1)) by lia. rewrite fmap_cons.
           cbn [app]. repeat f_equal; lia.
Qed.
End Comparison.

Lemma compare_results_completes show_float show_int cpu kernel (n : nat) :
  (n <= length cpu)%nat -> (n <= length kernel)%nat ->
  exists manual_match es,
    compare_results show_float show_int n 0 cpu kernel
      = (Value manual_match, es).
Proof.
  intros Hc Hk.
  destruct (compare_results_spec show_float show_int cpu kernel n 0)
    as [[Heq _]|(j & a & b & _ & _ & _ & _ & _ & Heq)];
    try lia; rewrite Heq; eauto.
Qed.


(** ** printMatrix and main *)

Lemma completes_print s text : completes (print s text).
Proof. now eexists. Qed.

Lemma completes_pret : completes (pret tt).
Proof. now eexists. Qed.

Lemma completes_pbind (m : Proc unit) (k : unit -> Proc unit) :
  completes m -> completes (k tt) -> completes (pbind m k).
Proof.
  intros [es1 ->] [es2 H2]. exists (es1 ++ es2).
  now rewrite pbind_Value, H2.
Qed.

Lemma completes_proc_for (body : Z -> Proc unit) (n : nat) :
  forall i,
    (forall j, i <= j < i + Z.of_nat n -> completes (body j)) ->
    completes (proc_for n i body).
Proof.
  induction n as [|n IH]; intros i Hbody.
  - apply completes_pret.
  - cbn [proc_for]. apply completes_pbind.
    + apply Hbody. lia.
    + apply IH. intros j Hj. apply Hbody. lia.
Qed.

Lemma wrap_size_le z : 0 <= z -> 0 <= wrap_size z <= z.
Proof.
  intros Hz. unfold wrap_size.
  pose proof (Z.mod_pos_bound z 18446744073709551616 eq_refl).
  pose proof (Z.mod_le z 18446744073709551616 Hz eq_refl). lia.
Qed.

(** On a matrix that holds [width * height] elements, [printMatrix] runs to
    its end. *)
Lemma printMatrix_completes {T} (show : T -> string) (mat : list T) width height :
  0 <= width -> 0 <= height ->
  width * height <= Z.of_nat (length mat) ->
  completes (printMatrix show mat width height).
Proof.
  intros Hw Hh Hlen. unfold printMatrix.
  apply completes_pbind; [apply completes_print|].
  apply completes_pbind; [|apply completes_print].
  apply completes_proc_for. intros y Hy.
  apply completes_pbind; [apply completes_print|].
  apply completes_pbind.
  - apply completes_proc_for. intros x Hx. cbn zeta.
    pose proof (wrap_size_le (y * width) ltac:(nia)) as H1.
    pose proof (wrap_size_le (wrap_size (y * width) + x) ltac:(lia)) as H2.
    destruct (lookup_lt_is_Some_2 mat
                (Z.to_nat (wrap_size (wrap_size (y * width) + x))))
      as [v ->]; [nia|].
    cbn [lift_result]. fold (pret v). rewrite pbind_pret.
    apply completes_pbind; [apply completes_print|].
    destruct (wrap_size (x + 1) <? width);
      [apply completes_print | apply completes_pret].
  - apply completes_pbind; [apply completes_print|].
    apply completes_pbind; [|apply completes_print].
    destruct (wrap_size (y + 1) <? height);
      [apply completes_print | apply completes_pret].
Qed.

Lemma cpu_result_eq : cpu_result = inr expected_buffer.
Proof.
  assert (H : exists l, cpu_result = inr l) by (vm_compute; eauto).
  destruct H as [l H]. unfold expected_buffer. now rewrite H.
Qed.

Lemma expected_buffer_length : length expected_buffer = 144%nat.
Proof. vm_compute. reflexivity. Qed.

Lemma kernel_result_manual_length env :
  length (kernel_result_manual env) = 144%nat.
Proof.
  unfold kernel_result_manual. rewrite length_fmap, length_seqZ. reflexivity.
Qed.

Section Main.
Context (show_float : float -> string) (show_int : Z -> string).

Lemma CL_CHECK_success status printed line :
  (status =? CL_SUCCESS) = true ->
  CL_CHECK show_int status printed line = pret tt.
Proof. intros H. unfold CL_CHECK. now rewrite H. Qed.

Lemma CL_CHECK_failure status printed line :
  (status =? CL_SUCCESS) = false ->
  fst (CL_CHECK show_int status printed line) = Exited 1.
Proof. intros H. unfold CL_CHECK. now rewrite H. Qed.

(** When the set-up succeeds, [main] runs the comparison, prints the
    verdict and the two grids, and returns 0. *)
Lemma main_success env :
  setup_succeeds env = true ->
  exists manual_match es grid_cpu grid_kernel,
    compare_results show_float show_int (Z.to_nat output_size) 0
      expected_buffer (kernel_result_manual env) = (Value manual_match, es) /\
    printMatrix show_float expected_buffer output_width output_height
      = (Value tt, grid_cpu) /\
    printMatrix show_float (kernel_result_manual env)
      output_width output_height = (Value tt, grid_kernel) /\
    main show_float show_int env
      = (Value 0,
         es ++ [Print Cout (endl +:+ "--- Results Comparison ---" +:+ endl);
                Print Cout ("CPU vs. Manual Mirrored Kernel: "
                              +:+ (if manual_match then "PASS" else "FAIL")
                              +:+ endl);
                Print Cout ("CPU Result:" +:+ endl)]
            ++ grid_cpu
            ++ [Print Cout (endl +:+ "Kernel Result:" +:+ endl)]
            ++ grid_kernel).
Proof.
  intros H. unfold setup_succeeds in H.
  repeat match goal with
         | H : _ && _ = true |- _ => apply andb_prop in H; destruct H
         end.
  destruct (compare_results_completes show_float show_int expected_buffer
              (kernel_result_manual env) (Z.to_nat output_size))
    as (m & es & Hcmp).
  { now rewrite expected_buffer_length. }
  { now rewrite kernel_result_manual_length. }
  destruct (printMatrix_completes show_float expected_buffer
              output_width output_height) as [g1 Hg1];
    [done | done | now rewrite expected_buffer_length |].
  destruct (printMatrix_completes show_float (kernel_result_manual env)
              output_width output_height) as [g2 Hg2];
    [done | done | now rewrite kernel_result_manual_length |].
  exists m, es, g1, g2. repeat (split; [assumption|]).
  unfold main. rewrite cpu_result_eq.
  change (lift_result (inr expected_buffer)) with (pret expected_buffer).
  rewrite pbind_pret.
  match goal with H : kernel_file_is_open env = true |- _ => rewrite H end.
  match goal with
  | H : (clBuildProgram env =? CL_SUCCESS) = true |- _ => rewrite H
  end.
  cbn [negb].
  repeat first [ rewrite pbind_pret
               | rewrite CL_CHECK_success by assumption ].
  rewrite Hcmp, Hg1, Hg2. unfold print, pret. cbn [pbind].
  rewrite app_nil_r. reflexivity.
Qed.

Ltac cl_step s :=
  let E := fresh "E" in
  destruct (s =? CL_SUCCESS) eqn:E;
  [ rewrite (CL_CHECK_success _ _ _ E), pbind_pret
  | rewrite exit_code_pbind, (CL_CHECK_failure _ _ _ E); reflexivity ].

(** When a checked call fails, the kernel file is missing or the build
    fails, the process ends with status 1. *)
Lemma main_failure env :
  setup_succeeds env = false ->
  exit_code (main show_float show_int env) = Some 1.
Proof.
  intros H. unfold main. rewrite cpu_result_eq.
  change (lift_result (inr expected_buffer)) with (pret expected_buffer).
  rewrite pbind_pret.
  cl_step (clGetPlatformIDs env). cl_step (clGetDeviceIDs env).
  cl_step (clCreateContext env). cl_step (clCreateCommandQueue env).
  destruct (kernel_file_is_open env) eqn:Efile; cbn [negb];
    [|reflexivity].
  cl_step (clCreateProgramWithSource env).
  destruct (clBuildProgram env =? CL_SUCCESS) eqn:Ebuild; cbn [negb].
  - cl_step (clCreateKernel env). cl_step (clCreateImage_in env).
    cl_step (clCreateImage_out env). cl_step (clSetKernelArg_0 env).
    cl_step (clSetKernelArg_1 env). cl_step (clSetKernelArg_2 env).
    cl_step (clEnqueueNDRangeKernel env). cl_step (clEnqueueReadImage env).
    cl_step (clFinish env).
    unfold setup_succeeds in H.
    repeat match goal with
           | E : _ = true |- _ => rewrite E in H; clear E
           end.
    discriminate.
  - cl_step (clGetProgramBuildInfo_size env).
    cl_step (clGetProgramBuildInfo_log env).
    reflexivity.
Qed.
End Main.

(** ** The harness: claims *)

(** C7. The exit status of the process is 0 when every checked OpenCL call
    succeeds, the kernel file opens and the program builds, whatever image
    the device returns, hence also when the comparison fails; it is 1 as
    soon as a checked OpenCL call fails, the kernel file is missing or the
    build fails. *)
Theorem exit_code_of_main (show_float : float -> string)
    (show_int : Z -> string) (env : Env) :
  exit_code (main show_float show_int env)
  = Some (if setup_succeeds env then 0 else 1).
Proof.
  destruct (setup_succeeds env) eqn:H.
  - destruct (main_success show_float show_int env H)
      as (m & es & g1 & g2 & _ & _ & _ & ->).
    reflexivity.
  - now apply main_failure.
Qed.

(** ** Worked examples *)

(** An offset above [INT_MAX] is read as a negative [int]: 4294967295 is
    -1, so destination (0,0) takes the source element at coordinate 1. *)
Example offset_above_INT_MAX :
  static_cast_int 4294967295 = -1 /\
  call_cpu_reference_calculation [10; 11; 12] [0] 3 1 1 1 4294967295 0
  = inr [11].
Proof. split; reflexivity. Qed.

(** The grid of a 2 x 2 matrix: every cell is as wide as the widest one. *)
Example printMatrix_2x2 :
  text_of Cout
    (snd (printMatrix (fun n : Z => if n <? 10 then "7" else "10")
            [7; 10; 7; 7] 2 2))
  = ["[" +:+ endl;
     " ["; " 7"; " "; "10"; "]"; ","; endl;
     " ["; " 7"; " "; " 7"; "]"; endl;
     "]" +:+ endl].
Proof. reflexivity. Qed.

(** A run whose comparison fails: the device returns zeros, the first pair
    (7 against 0) is reported on [std::cerr], the comparison looks at no
    other pair, and [main] still returns 0. *)
Example main_on_a_mismatch (show_float : float -> string)
    (show_int : Z -> string) :
  let run := main show_float show_int env_zero_image in
  fst run = Value 0 /\
  compared (snd run) = [0] /\
  text_of Cerr (snd run)
  = [mismatch_message show_float show_int 0 (float_of_int 7) float_zero].
Proof. vm_compute. repeat split. Qed.

(** ** The theorems at concrete inputs *)

Ltac side_condition :=
  first [ reflexivity
        | unfold is_int, INT_MIN, INT_MAX; vm_compute; intuition discriminate ].

(** C1 on the canonical run, at destination (0,0). *)
Lemma cpu_reference_calculation_mirrors_witness :
  exists dst' v,
    call_cpu_reference_calculation (seqZ 0 20) (replicate 144 0)
      4 5 12 12 5 2 = inr dst' /\
    vec_index (seqZ 0 20)
      (Spec.src_index 5 (0 - static_cast_int 2) * 4
       + Spec.src_index 4 (0 - static_cast_int 5)) = Some v /\
    vec_index dst' (0 * 12 + 0) = Some v /\
    (0 <= 5 <= INT_MAX -> 0 - static_cast_int 5 = 0 - 5) /\
    (0 <= 2 <= INT_MAX -> 0 - static_cast_int 2 = 0 - 2).
Proof.
  apply (cpu_reference_calculation_mirrors (seqZ 0 20) (replicate 144 0)
           4 5 12 12 5 2 0 0); side_condition.
Defined.

(** C2 on the canonical run. *)
Lemma source_reads_in_range_witness :
  (exists i, mirror_axis 4 (-5) = inr i /\ 0 <= i < 4) /\
  ensures (fun _ st' => Forall (fun i => 0 <= i < 4 * 5) (reads (trace st')))
          (fun f => exists i, f = OutOfRange DstData i)
          (cpu_reference_calculation 4 5 12 12 5 2
             (Store (seqZ 0 20) (replicate 144 0) [])).
Proof.
  apply (source_reads_in_range (seqZ 0 20) (replicate 144 0) 4 (-5)
           4 5 12 12 5 2); side_condition.
Defined.


(** C5 on a 3 x 2 buffer. *)
Lemma identity_case_witness :
  call_cpu_reference_calculation [1; 2; 3; 4; 5; 6] [0; 0; 0; 0; 0; 0]
    3 2 3 2 0 0 = inr [1; 2; 3; 4; 5; 6].
Proof.
  apply (identity_case [1; 2; 3; 4; 5; 6] [0; 0; 0; 0; 0; 0] 3 2);
    side_condition.
Defined.

(** C9 on the canonical dimensions, from two different destinations. *)
Lemma evaluator_deterministic_and_total_witness :
  (exists i, mirror_axis 4 (-5) = inr i) /\
  exists out,
    call_cpu_reference_calculation (seqZ 0 20) (replicate 144 0)
      4 5 12 12 5 2 = inr out /\
    call_cpu_reference_calculation (seqZ 0 20) (replicate 144 1)
      4 5 12 12 5 2 = inr out.
Proof.
  apply (evaluator_deterministic_and_total (seqZ 0 20) (replicate 144 0)
           (replicate 144 1) 4 (-5) 4 5 12 12 5 2); side_condition.
Defined.

(** C10 on a destination vector longer than the 2 x 2 image written. *)
Lemma cpu_reference_calculation_frame_witness :
  exists st,
    cpu_reference_calculation 3 1 2 2 1 0 (Store [7; 8; 9] [0; 0; 0; 0; 5] [])
      = inr (tt, st) /\
    src_data st = [7; 8; 9] /\
    writes (trace st) = seqZ 0 (2 * 2) /\
    length (dst_data st) = length [0; 0; 0; 0; 5] /\
    forall j : nat, 2 * 2 <= Z.of_nat j ->
      dst_data st !! j = [0; 0; 0; 0; 5] !! j.
Proof.
  apply (cpu_reference_calculation_frame [7; 8; 9] [0; 0; 0; 0; 5]
           3 1 2 2 1 0); side_condition.
Defined.



(* ===================================================================== *)
(** * Further properties of the reference evaluator *)
(* ===================================================================== *)

(** The destination after a call, pixel by pixel, in the wrapped
    arithmetic of the source. *)
Lemma call_pixels {A} (src dst : list A)
    src_w src_h dst_w dst_h offset_x offset_y :
  0 < src_w -> 0 < src_h ->
  Z.of_nat (length src) = src_w * src_h -> src_w * src_h <= INT_MAX ->
  0 <= dst_w -> 0 <= dst_h -> dst_w * dst_h <= INT_MAX ->
  Z.of_nat (length dst) = dst_w * dst_h ->
  exists dst',
    call_cpu_reference_calculation src dst src_w src_h dst_w dst_h
      offset_x offset_y = inr dst' /\
    length dst' = length dst /\
    forall x y, 0 <= x < dst_w -> 0 <= y < dst_h ->
      vec_index dst' (y * dst_w + x)
      = vec_index src (source_index src_w src_h offset_x offset_y y x).
Proof.
  intros Hw Hh Hlen Hsz Hdw Hdh Hdsz Hdlen.
  destruct (cpu_reference_calculation_completes src dst [] src_w src_h
              dst_w dst_h offset_x offset_y)
    as (st & Hrun & _ & Hl & _ & Hdst); try lia.
  exists (dst_data st). unfold call_cpu_reference_calculation. rewrite Hrun.
  split; [reflexivity|]. split; [exact Hl|].
  intros x y Hx Hy.
  destruct (row_major_div_mod dst_w y x Hx) as [Hdiv Hmod].
  pose proof (source_index_spec src_w src_h offset_x offset_y y x Hw Hh Hsz)
    as (_ & _ & _ & _ & _ & Hr).
  rewrite !vec_index_lookup by nia. rewrite Hdst.
  rewrite decide_True by nia. rewrite Z2Nat.id by nia.
  now rewrite Hdiv, Hmod.
Qed.

Lemma for_loop_ret {A} (n : nat) :
  forall i (st : store A), for_loop n i (fun _ => ret tt) st = inr (tt, st).
Proof. induction n as [|n IH]; intros i st; [reflexivity | apply IH]. Qed.

(** X1. With an empty destination grid ([dst_w <= 0] or [dst_h <= 0]) the
    call does nothing: no element is read or written, and it cannot fault,
    whatever the source extents are (zero included). *)
Theorem empty_destination_is_a_no_op {A} (st : store A)
    (src_w src_h dst_w dst_h offset_x offset_y : Z) :
  dst_w <= 0 \/ dst_h <= 0 ->
  cpu_reference_calculation src_w src_h dst_w dst_h offset_x offset_y st
  = inr (tt, st).
Proof.
  intros H. unfold cpu_reference_calculation.
  destruct (Z.to_nat dst_w) eqn:Ew.
  - apply (for_loop_ret (Z.to_nat dst_h) 0 st).
  - destruct H as [H|H]; [lia|].
    now replace (Z.to_nat dst_h) with 0%nat by lia.
Qed.

Lemma mirror_axis_fault extent shifted f :
  mirror_axis extent shifted = inl f -> f = DivisionByZero.
Proof.
  unfold mirror_axis, int_rem.
  destruct (_ || _); [congruence | discriminate].
Qed.

Lemma mirror_axis_zero shifted : mirror_axis 0 shifted = inl DivisionByZero.
Proof. reflexivity. Qed.

(** X2. A source extent of zero is a division by zero as soon as there is
    one pixel to compute. *)
Theorem zero_extent_divides_by_zero {A} (st : store A)
    (src_w src_h dst_w dst_h offset_x offset_y : Z) :
  src_w = 0 \/ src_h = 0 -> 0 < dst_w -> 0 < dst_h ->
  cpu_reference_calculation src_w src_h dst_w dst_h offset_x offset_y st
  = inl DivisionByZero.
Proof.
  intros H Hw Hh. unfold cpu_reference_calculation.
  destruct (Z.to_nat dst_h) as [|nh] eqn:Eh; [lia|].
  destruct (Z.to_nat dst_w) as [|nw] eqn:Ew; [lia|].
  cbn [for_loop]. unfold bind at 1. unfold bind at 1.
  unfold pixel, bind, lift.
  destruct (mirror_axis src_w _) as [f|x_src] eqn:Ex.
  - now rewrite (mirror_axis_fault _ _ _ Ex).
  - destruct H as [->| ->]; [now rewrite mirror_axis_zero in Ex|].
    now rewrite mirror_axis_zero.
Qed.

Lemma int_mul_2_zero extent :
  is_int extent -> (int_mul extent 2 = 0 <-> extent = 0 \/ extent = INT_MIN).
Proof.
  intros He. unfold int_mul.
  destruct (wrap_int_congr (extent * 2)) as [k Hk].
  pose proof (wrap_int_is_int (extent * 2)) as Hi.
  unfold is_int, INT_MIN, INT_MAX in *. split.
  - intros H0. lia.
  - intros [->| ->]; reflexivity.
Qed.

(** X3. On values of type [int], the mirroring of one axis faults exactly
    when the extent is 0 or [INT_MIN] (the two values whose double is 0 in
    [int]); the fault is the division by zero. *)
Theorem mirror_axis_faults_iff (extent shifted : Z) :
  is_int extent -> is_int shifted ->
  (mirror_axis extent shifted = inl DivisionByZero
     <-> extent = 0 \/ extent = INT_MIN) /\
  (forall f, mirror_axis extent shifted = inl f -> f = DivisionByZero).
Proof.
  intros He Hs. split; [|intros f; apply mirror_axis_fault].
  rewrite <- (int_mul_2_zero extent He).
  unfold mirror_axis, int_rem.
  destruct (wrap_int_congr (extent * 2)) as [k Hk].
  fold (int_mul extent 2) in Hk.
  destruct (int_mul extent 2 =? 0) eqn:E0; cbn [orb].
  - split; [lia | reflexivity].
  - destruct (int_mul extent 2 =? -1) eqn:E1; [lia|].
    rewrite andb_false_r. split; [discriminate | lia].
Qed.

(** X4. Every element of the destination after a call is an element of the
    source: the evaluator copies, it never makes up a value.  This holds
    in the wrapped arithmetic too, for every offset. *)
Theorem destination_values_come_from_source {A} (src dst : list A)
    (src_w src_h dst_w dst_h offset_x offset_y : Z) :
  0 < src_w -> 0 < src_h ->
  Z.of_nat (length src) = src_w * src_h -> src_w * src_h <= INT_MAX ->
  0 <= dst_w -> 0 <= dst_h -> dst_w * dst_h <= INT_MAX ->
  Z.of_nat (length dst) = dst_w * dst_h ->
  exists dst',
    call_cpu_reference_calculation src dst src_w src_h dst_w dst_h
      offset_x offset_y = inr dst' /\
    Forall (fun v => v ∈ src) dst'.
Proof.
  intros Hw Hh Hlen Hsz Hdw Hdh Hdsz Hdlen.
  destruct (cpu_reference_calculation_completes src dst [] src_w src_h
              dst_w dst_h offset_x offset_y)
    as (st & Hrun & _ & Hl & _ & Hdst); try lia.
  exists (dst_data st). unfold call_cpu_reference_calculation. rewrite Hrun.
  split; [reflexivity|].
  apply Forall_lookup_2. intros j v Hj.
  pose proof (lookup_lt_Some _ _ _ Hj) as Hlt.
  rewrite Hdst in Hj. rewrite decide_True in Hj by lia.
  eapply list_elem_of_lookup_2. exact Hj.
Qed.

(** With a destination vector of fewer than [dst_w * dst_h] elements the
    run ends at the write of index [length dst], the first access outside
    a vector. *)
Lemma short_destination_outcome {A} (src dst : list A)
    (src_w src_h dst_w dst_h offset_x offset_y : Z) :
  0 < src_w -> 0 < src_h ->
  Z.of_nat (length src) = src_w * src_h -> src_w * src_h <= INT_MAX ->
  0 <= dst_w -> 0 <= dst_h -> dst_w * dst_h <= INT_MAX ->
  Z.of_nat (length dst) < dst_w * dst_h ->
  cpu_reference_calculation src_w src_h dst_w dst_h offset_x offset_y
    (Store src dst [])
  = inl (OutOfRange DstData (Z.of_nat (length dst))).
Proof.
  intros Hw Hh Hlen Hsz Hdw Hdh Hdsz Hshort.
  pose (I := fun (k : Z) (st : store A) =>
    src_data st = src /\ length (dst_data st) = length dst /\
    k <= Z.of_nat (length dst)).
  pose (F := fun f => f = OutOfRange DstData (Z.of_nat (length dst))).
  assert (Hrun : ensures (fun _ => I ((0 + Z.of_nat (Z.to_nat dst_h)) * dst_w))
                   F
                   (cpu_reference_calculation src_w src_h dst_w dst_h
                      offset_x offset_y (Store src dst []))).
  { unfold cpu_reference_calculation.
    apply (for_loop_rule (fun y => I (y * dst_w))).
    - intros y st Hy Hst.
      replace ((y + 1) * dst_w)
        with (y * dst_w + (0 + Z.of_nat (Z.to_nat dst_w))) by lia.
      apply (for_loop_rule (fun x => I (y * dst_w + x))).
      + intros x st' Hx (Hsrc & Hl & Hk).
        assert (Hkr : 0 <= y * dst_w + x < dst_w * dst_h) by nia.
        destruct (pixel_run st' src_w src_h dst_w offset_x offset_y y x)
          as (v & _ & ->); auto; [rewrite Hsrc; lia|].
        assert (Hwi : int_add (int_mul y dst_w) x = y * dst_w + x).
        { unfold int_add, int_mul.
          rewrite (wrap_int_id (y * dst_w));
            [apply wrap_int_id|]; unfold is_int, INT_MIN, INT_MAX in *; nia. }
        rewrite Hwi. unfold write_dst. cbn [src_data dst_data trace].
        destruct (vec_index (dst_data st') (y * dst_w + x)) as [old|] eqn:Ev;
          cbn [ensures].
        * unfold I. cbn [src_data dst_data]. rewrite length_insert.
          rewrite vec_index_lookup in Ev by lia.
          apply lookup_lt_Some in Ev. repeat split; auto; lia.
        * unfold F. apply vec_index_None in Ev. do 2 f_equal. lia.
      + now rewrite Z.add_0_r.
    - unfold I. cbn [src_data dst_data]. repeat split; lia. }
  destruct (cpu_reference_calculation _ _ _ _ _ _ _) as [f|[[] st]];
    cbn [ensures] in Hrun.
  - now rewrite Hrun.
  - destruct Hrun as (_ & _ & Hk). nia.
Qed.

(** X5. The bound on the destination.  With a well-sized source, the
    accesses of a call stay inside the two vectors exactly when the
    destination holds at least [dst_w * dst_h] elements.  When it holds
    fewer, the first access outside a vector is the write of
    [dst_data[dst.size()]]: no source read and no earlier write is out of
    range.  ([operator[]] does not check: in the source that write is
    undefined behaviour; the run of the model ends there.) *)
Theorem destination_in_bounds_iff {A} (src dst : list A)
    (src_w src_h dst_w dst_h offset_x offset_y : Z) :
  0 < src_w -> 0 < src_h ->
  Z.of_nat (length src) = src_w * src_h -> src_w * src_h <= INT_MAX ->
  0 <= dst_w -> 0 <= dst_h -> dst_w * dst_h <= INT_MAX ->
  let run :=
    cpu_reference_calculation src_w src_h dst_w dst_h offset_x offset_y
      (Store src dst []) in
  ((exists st, run = inr (tt, st)) <-> dst_w * dst_h <= Z.of_nat (length dst))
  /\
  (Z.of_nat (length dst) < dst_w * dst_h ->
   run = inl (OutOfRange DstData (Z.of_nat (length dst)))).
Proof.
  intros Hw Hh Hlen Hsz Hdw Hdh Hdsz run.
  assert (Hshort : Z.of_nat (length dst) < dst_w * dst_h ->
                   run = inl (OutOfRange DstData (Z.of_nat (length dst))))
    by (intros Hs; now apply short_destination_outcome).
  split; [|exact Hshort]. split.
  - intros [st Hst].
    destruct (Z_lt_le_dec (Z.of_nat (length dst)) (dst_w * dst_h)) as [Hs|Hs];
      [|exact Hs].
    rewrite (Hshort Hs) in Hst. discriminate.
  - intros Hle.
    destruct (cpu_reference_calculation_completes src dst [] src_w src_h
                dst_w dst_h offset_x offset_y) as (st & Hrun & _); try lia.
    now exists st.
Qed.

(** ** The image that the evaluator draws *)

Lemma spec_src_index_periodic e s c :
  0 < e -> Spec.src_index e (s + 2 * e * c) = Spec.src_index e s.
Proof.
  intros He. rewrite !spec_src_index_fold by assumption.
  replace (s + 2 * e * c) with (s + c * (2 * e)) by lia.
  now rewrite Z.mod_add by lia.
Qed.

Lemma spec_src_index_reflect e s c :
  0 < e -> Spec.src_index e (2 * e * c - 1 - s) = Spec.src_index e s.
Proof.
  intros He. rewrite !spec_src_index_fold by assumption.
  replace (2 * e * c - 1 - s) with (-1 - s + c * (2 * e)) by lia.
  rewrite Z.mod_add by lia. rewrite mod_reflect by lia.
  pose proof (Z.mod_pos_bound s (2 * e) ltac:(lia)).
  destruct (s mod (2 * e) <? e) eqn:E1;
    destruct (2 * e - 1 - s mod (2 * e) <? e) eqn:E2; lia.
Qed.

Lemma spec_src_index_inside e s : 0 <= s < e -> Spec.src_index e s = s.
Proof.
  intros Hs. rewrite spec_src_index_fold by lia.
  rewrite Z.mod_small by lia. destruct (s <? e) eqn:E; lia.
Qed.

(** With offsets up to [INT_MAX] and coordinates of a destination whose
    size fits in [int], nothing wraps. *)
Lemma source_index_plain src_w src_h offset_x offset_y y x :
  0 < src_w -> 0 < src_h ->
  2 * src_w <= INT_MAX -> 2 * src_h <= INT_MAX -> src_w * src_h <= INT_MAX ->
  0 <= offset_x <= INT_MAX -> 0 <= offset_y <= INT_MAX ->
  0 <= x <= INT_MAX -> 0 <= y <= INT_MAX ->
  source_index src_w src_h offset_x offset_y y x
  = Spec.src_index src_h (y - offset_y) * src_w
    + Spec.src_index src_w (x - offset_x).
Proof.
  intros Hw Hh H2w H2h Hsz Hox Hoy Hx Hy.
  assert (Hcx : static_cast_int offset_x = offset_x)
    by (apply wrap_int_id; unfold is_int, INT_MIN, INT_MAX in *; lia).
  assert (Hcy : static_cast_int offset_y = offset_y)
    by (apply wrap_int_id; unfold is_int, INT_MIN, INT_MAX in *; lia).
  rewrite source_index_exact; auto; rewrite ?Hcx, ?Hcy; auto;
    unfold is_int, INT_MIN, INT_MAX in *; lia.
Qed.

(** X6. Which coordinates select a given pixel: the mirrored index of [s]
    is [i] exactly when [s] is congruent, modulo [2e], to [i] or to its
    mirror image [2e-1-i].  So within every period each index of [0, e) is
    selected at exactly two coordinates. *)
Theorem mirror_axis_preimage (e s i : Z) :
  0 < e -> 2 * e <= INT_MAX -> is_int s ->
  mirror_axis e s = inr i
  <-> 0 <= i < e /\ (s mod (2 * e) = i \/ s mod (2 * e) = 2 * e - 1 - i).
Proof.
  intros He H2 Hs. rewrite mirror_axis_exact by assumption.
  rewrite spec_src_index_fold by assumption.
  pose proof (Z.mod_pos_bound s (2 * e) ltac:(lia)) as Hm.
  destruct (s mod (2 * e) <? e) eqn:E; split.
  - intros [= <-]. lia.
  - intros [Hi [H|H]]; f_equal; lia.
  - intros [= <-]. lia.
  - intros [Hi [H|H]]; f_equal; lia.
Qed.

Section Image.
Context {A : Type} (src dst : list A).
Context (src_w src_h dst_w dst_h offset_x offset_y : Z).
Hypothesis (Hw : 0 < src_w) (Hh : 0 < src_h).
Hypothesis (H2w : 2 * src_w <= INT_MAX) (H2h : 2 * src_h <= INT_MAX).
Hypothesis (Hlen : Z.of_nat (length src) = src_w * src_h).
Hypothesis (Hsz : src_w * src_h <= INT_MAX).
Hypothesis (Hdw : 0 <= dst_w) (Hdh : 0 <= dst_h).
Hypothesis (Hdsz : dst_w * dst_h <= INT_MAX).
Hypothesis (Hdlen : Z.of_nat (length dst) = dst_w * dst_h).
Hypothesis (Hox : 0 <= offset_x <= INT_MAX) (Hoy : 0 <= offset_y <= INT_MAX).

(** The destination after the call, pixel by pixel, where nothing wraps. *)
Lemma image_pixels :
  exists dst',
    call_cpu_reference_calculation src dst src_w src_h dst_w dst_h
      offset_x offset_y = inr dst' /\
    forall x y, 0 <= x < dst_w -> 0 <= y < dst_h ->
      vec_index dst' (y * dst_w + x)
      = vec_index src (Spec.src_index src_h (y - offset_y) * src_w
                       + Spec.src_index src_w (x - offset_x)).
Proof using All.
  destruct (call_pixels src dst src_w src_h dst_w dst_h offset_x offset_y)
    as (dst' & Hcall & _ & Hpix); auto.
  exists dst'. split; [exact Hcall|]. intros x y Hx Hy.
  rewrite Hpix by assumption. f_equal.
  apply source_index_plain; auto; nia.
Qed.

(** X7. The source appears unmirrored in the destination, with its corner
    (0,0) at the offset: a destination pixel whose shifted coordinates fall
    inside the source is the source pixel at those coordinates. *)
Theorem source_window_is_copied :
  exists dst',
    call_cpu_reference_calculation src dst src_w src_h dst_w dst_h
      offset_x offset_y = inr dst' /\
    forall x y, 0 <= x < dst_w -> 0 <= y < dst_h ->
      0 <= x - offset_x < src_w -> 0 <= y - offset_y < src_h ->
      vec_index dst' (y * dst_w + x)
      = vec_index src ((y - offset_y) * src_w + (x - offset_x)).
Proof using All.
  destruct image_pixels as (dst' & Hcall & Hpix).
  exists dst'. split; [exact Hcall|]. intros x y Hx Hy Hsx Hsy.
  rewrite Hpix by assumption.
  now rewrite !spec_src_index_inside by assumption.
Qed.

(** X8. The image drawn in the destination is periodic: two pixels of the
    destination that lie a multiple of [2*src_w] apart horizontally and a
    multiple of [2*src_h] apart vertically are equal. *)
Theorem image_is_periodic :
  exists dst',
    call_cpu_reference_calculation src dst src_w src_h dst_w dst_h
      offset_x offset_y = inr dst' /\
    forall x y x' y' cx cy,
      0 <= x < dst_w -> 0 <= y < dst_h ->
      0 <= x' < dst_w -> 0 <= y' < dst_h ->
      x' = x + 2 * src_w * cx -> y' = y + 2 * src_h * cy ->
      vec_index dst' (y' * dst_w + x') = vec_index dst' (y * dst_w + x).
Proof using All.
  destruct image_pixels as (dst' & Hcall & Hpix).
  exists dst'. split; [exact Hcall|].
  intros x y x' y' cx cy Hx Hy Hx' Hy' -> ->.
  rewrite !Hpix by assumption.
  replace (x + 2 * src_w * cx - offset_x)
    with (x - offset_x + 2 * src_w * cx) by lia.
  replace (y + 2 * src_h * cy - offset_y)
    with (y - offset_y + 2 * src_h * cy) by lia.
  now rewrite !spec_src_index_periodic by assumption.
Qed.

(** X9. The image is mirror-symmetric about every edge of every copy of the
    source: the vertical lines half a pixel left of column
    [offset_x + src_w*c], and the horizontal lines likewise.  Two pixels of
    the destination that are mirror images in such a line are equal. *)
Theorem image_is_mirror_symmetric :
  exists dst',
    call_cpu_reference_calculation src dst src_w src_h dst_w dst_h
      offset_x offset_y = inr dst' /\
    (forall x x' y c,
       0 <= x < dst_w -> 0 <= x' < dst_w -> 0 <= y < dst_h ->
       x + x' = 2 * (offset_x + src_w * c) - 1 ->
       vec_index dst' (y * dst_w + x') = vec_index dst' (y * dst_w + x)) /\
    (forall x y y' c,
       0 <= x < dst_w -> 0 <= y < dst_h -> 0 <= y' < dst_h ->
       y + y' = 2 * (offset_y + src_h * c) - 1 ->
       vec_index dst' (y' * dst_w + x) = vec_index dst' (y * dst_w + x)).
Proof using All.
  destruct image_pixels as (dst' & Hcall & Hpix).
  exists dst'. split; [exact Hcall|]. split.
  - intros x x' y c Hx Hx' Hy Hsum. rewrite !Hpix by assumption.
    replace (x' - offset_x) with (2 * src_w * c - 1 - (x - offset_x)) by lia.
    now rewrite spec_src_index_reflect by assumption.
  - intros x y y' c Hx Hy Hy' Hsum. rewrite !Hpix by assumption.
    replace (y' - offset_y) with (2 * src_h * c - 1 - (y - offset_y)) by lia.
    now rewrite spec_src_index_reflect by assumption.
Qed.
End Image.

(** X10. Moving the offset moves the image: the destination drawn with
    offset [(ox + dx, oy + dy)] is the one drawn with [(ox, oy)], shifted by
    [(dx, dy)], wherever both pixels lie inside the destination. *)
Theorem offset_translates_image {A} (src dst1 dst2 : list A)
    (src_w src_h dst_w dst_h ox oy dx dy : Z) :
  0 < src_w -> 0 < src_h ->
  2 * src_w <= INT_MAX -> 2 * src_h <= INT_MAX ->
  Z.of_nat (length src) = src_w * src_h -> src_w * src_h <= INT_MAX ->
  0 <= dst_w -> 0 <= dst_h -> dst_w * dst_h <= INT_MAX ->
  Z.of_nat (length dst1) = dst_w * dst_h ->
  Z.of_nat (length dst2) = dst_w * dst_h ->
  0 <= ox <= INT_MAX -> 0 <= oy <= INT_MAX ->
  0 <= ox + dx <= INT_MAX -> 0 <= oy + dy <= INT_MAX ->
  exists out1 out2,
    call_cpu_reference_calculation src dst1 src_w src_h dst_w dst_h ox oy
      = inr out1 /\
    call_cpu_reference_calculation src dst2 src_w src_h dst_w dst_h
      (ox + dx) (oy + dy) = inr out2 /\
    forall x y,
      0 <= x < dst_w -> 0 <= y < dst_h ->
      0 <= x + dx < dst_w -> 0 <= y + dy < dst_h ->
      vec_index out2 ((y + dy) * dst_w + (x + dx))
      = vec_index out1 (y * dst_w + x).
Proof.
  intros Hw Hh H2w H2h Hlen Hsz Hdw Hdh Hdsz Hl1 Hl2 Hox Hoy Hox' Hoy'.
  destruct (image_pixels src dst1 src_w src_h dst_w dst_h ox oy)
    as (out1 & Hc1 & Hp1); auto.
  destruct (image_pixels src dst2 src_w src_h dst_w dst_h (ox + dx) (oy + dy))
    as (out2 & Hc2 & Hp2); auto.
  exists out1, out2. repeat split; auto.
  intros x y Hx Hy Hx' Hy'. rewrite Hp1, Hp2 by assumption.
  now replace (x + dx - (ox + dx)) with (x - ox) by lia;
    replace (y + dy - (oy + dy)) with (y - oy) by lia.
Qed.

(* ===================================================================== *)
(** * Further properties of printMatrix *)
(* ===================================================================== *)

Lemma printMatrix_unfold {T} (show : T -> string) (mat : list T) width height :
  printMatrix show mat width height
  = pbind (print Cout ("[" +:+ endl)) (fun _ =>
    pbind (proc_for (Z.to_nat height) 0
             (print_row show mat width height (max_text_width show mat)))
          (fun _ => print Cout ("]" +:+ endl))).
Proof. reflexivity. Qed.

(** *** Texts *)

Lemma string_app_assoc (a b c : string) : (a +:+ b) +:+ c = a +:+ (b +:+ c).
Proof.
  induction a as [|ch a IH]; [reflexivity|].
  change (String ch ((a +:+ b) +:+ c) = String ch (a +:+ (b +:+ c))).
  now f_equal.
Qed.

Lemma string_app_nil_r (a : string) : a +:+ "" = a.
Proof.
  induction a as [|ch a IH]; [reflexivity|].
  change (String ch (a +:+ "") = String ch a). now f_equal.
Qed.

Lemma string_length_app (a b : string) :
  String.length (a +:+ b) = (String.length a + String.length b)%nat.
Proof.
  induction a as [|ch a IH]; [reflexivity|].
  change (S (String.length (a +:+ b))
          = S (String.length a + String.length b)).
  now f_equal.
Qed.

Lemma concat_cons sep (x : string) (xs : list string) :
  String.concat sep (x :: xs)
  = match xs with [] => x | _ => x +:+ sep +:+ String.concat sep xs end.
Proof. reflexivity. Qed.

Lemma concat_empty_sep_cons (x : string) (xs : list string) :
  String.concat "" (x :: xs) = x +:+ String.concat "" xs.
Proof. destruct xs; cbn; [now rewrite string_app_nil_r | reflexivity]. Qed.

Lemma concat_empty_sep_app (l1 l2 : list string) :
  String.concat "" (l1 ++ l2) = String.concat "" l1 +:+ String.concat "" l2.
Proof.
  induction l1 as [|x l1 IH]; [reflexivity|].
  rewrite <- app_comm_cons, !concat_empty_sep_cons, IH.
  now rewrite string_app_assoc.
Qed.

Lemma cout_text_app es1 es2 :
  cout_text (es1 ++ es2) = cout_text es1 +:+ cout_text es2.
Proof. unfold cout_text. now rewrite text_of_app, concat_empty_sep_app. Qed.

Lemma cout_text_print t : cout_text [Print Cout t] = t.
Proof. reflexivity. Qed.

Lemma spaces_length (n : nat) :
  String.length (String.concat "" (replicate n " ")) = n.
Proof.
  induction n as [|n IH]; [reflexivity|].
  cbn [replicate]. rewrite concat_empty_sep_cons, string_length_app, IH.
  reflexivity.
Qed.

Lemma setw_length (w : nat) (text : string) :
  String.length (setw w text) = Nat.max w (String.length text).
Proof. unfold setw. rewrite string_length_app, spaces_length. lia. Qed.

Lemma max_text_width_ge {T} (show : T -> string) (mat : list T) v :
  v ∈ mat -> (String.length (show v) <= max_text_width show mat)%nat.
Proof.
  unfold max_text_width.
  assert (Hmono : forall l w,
            (w <= foldl (fun w val => Nat.max w (String.length (show val)))
                        w l)%nat).
  { induction l as [|a l IH]; intros w; cbn; [lia|].
    etransitivity; [|apply IH]. lia. }
  generalize 0%nat.
  induction mat as [|a mat IH]; intros w Hin; [inversion Hin|].
  apply elem_of_cons in Hin as [->|Hin]; cbn.
  - etransitivity; [|apply Hmono]. lia.
  - now apply IH.
Qed.

(** *** The two loops *)

Lemma pbind_Value_eq {X Y} (m : Proc X) (k : X -> Proc Y) x es o es' :
  m = (Value x, es) -> k x = (o, es') -> pbind m k = (o, es ++ es').
Proof. intros -> Hk. now rewrite pbind_Value, Hk. Qed.

Section Grid.
Context {T : Type} (show : T -> string) (mat : list T).
Context (width height : Z).
Hypothesis (Hw : 0 <= width) (Hh : 0 <= height).
Hypothesis (Hlen : width * height <= Z.of_nat (length mat)).
Hypothesis (Hsize : Z.of_nat (length mat) < 18446744073709551616).
Hypothesis (Hhsize : height < 18446744073709551616).

Let cell (v : T) : string := setw (max_text_width show mat) (show v).

Lemma wrap_size_id z : 0 <= z < 18446744073709551616 -> wrap_size z = z.
Proof. intros Hz. unfold wrap_size. now apply Z.mod_small. Qed.

(** The cells [x, ..., width-1] of row [y]. *)
Lemma print_cells_text (y : Z) (n : nat) :
  0 <= y < height ->
  forall x, 0 <= x -> x + Z.of_nat n = width ->
    exists es,
      proc_for n x (print_cell show mat width (max_text_width show mat) y)
        = (Value tt, es) /\
      cout_text es
      = String.concat " "
          (cell <$> take n (drop (Z.to_nat (y * width + x)) mat)).
Proof using All.
  intros Hy. induction n as [|n IH]; intros x Hx Hxn.
  - exists []. split; reflexivity.
  - destruct (IH (x + 1) ltac:(lia) ltac:(lia)) as (es & Hes & Htext).
    assert (Hidx : 0 <= y * width + x < Z.of_nat (length mat)) by nia.
    destruct (lookup_lt_is_Some_2 mat (Z.to_nat (y * width + x)))
      as [v Hv]; [lia|].
    assert (Hcell : print_cell show mat width (max_text_width show mat) y x
                    = (Value tt,
                       Print Cout (cell v)
                         :: (if 0 <? Z.of_nat n then [Print Cout " "] else []))).
    { unfold print_cell. cbn zeta.
      rewrite (wrap_size_id (y * width)) by nia.
      rewrite (wrap_size_id (y * width + x)) by nia.
      rewrite (wrap_size_id (x + 1)) by nia.
      rewrite Hv. cbn [lift_result]. rewrite pbind_Value. unfold print at 1.
      rewrite pbind_Value. cbn [fst snd app].
      replace (x + 1 <? width) with (0 <? Z.of_nat n)
        by (destruct (0 <? Z.of_nat n) eqn:E1, (x + 1 <? width) eqn:E2; lia).
      destruct (0 <? Z.of_nat n); reflexivity. }
    eexists. split.
    + cbn [proc_for]. apply (pbind_Value_eq _ _ tt _ _ _ Hcell Hes).
    + rewrite (drop_S _ _ _ Hv). cbn [take fmap list_fmap].
      change (Print Cout (cell v) :: ?l) with ([Print Cout (cell v)] ++ l).
      rewrite <- app_assoc, !cout_text_app, cout_text_print, Htext.
      replace (S (Z.to_nat (y * width + x)))
        with (Z.to_nat (y * width + (x + 1))) by lia.
      rewrite concat_cons.
      destruct n as [|n].
      * cbn. now rewrite string_app_nil_r.
      * rewrite (proj2 (Z.ltb_lt 0 (Z.of_nat (S n)))) by lia.
        rewrite cout_text_print.
        destruct (lookup_lt_is_Some_2 mat (Z.to_nat (y * width + (x + 1))))
          as [v' Hv']; [nia|].
        rewrite (drop_S _ _ _ Hv'). cbn [take fmap list_fmap]. reflexivity.
Qed.

(** One row. *)
Lemma print_row_text (y : Z) :
  0 <= y < height ->
  exists es,
    print_row show mat width height (max_text_width show mat) y
      = (Value tt, es) /\
    cout_text es
    = grid_row show mat width y
      +:+ (if y + 1 <? height then "," else "") +:+ endl.
Proof using All.
  intros Hy.
  destruct (print_cells_text y (Z.to_nat width) Hy 0 ltac:(lia) ltac:(lia))
    as (es & Hes & Htext).
  rewrite Z.add_0_r in Htext.
  unfold print_row. rewrite Hes.
  rewrite (wrap_size_id (y + 1)) by nia.
  unfold print at 1. rewrite pbind_Value, pbind_Value.
  unfold print at 1. rewrite pbind_Value.
  destruct (y + 1 <? height); unfold print, pret; rewrite pbind_Value;
    cbn [fst snd]; eexists; (split; [reflexivity|]);
    rewrite !cout_text_app, Htext; unfold grid_row; fold cell;
    cbn [cout_text text_of omap list_omap String.concat app];
    rewrite ?string_app_assoc, ?string_app_nil_r; reflexivity.
Qed.

(** The rows [y, ..., height-1]. *)
Lemma print_rows_text (n : nat) :
  forall y, 0 <= y -> y + Z.of_nat n = height ->
    exists es,
      proc_for n y (print_row show mat width height (max_text_width show mat))
        = (Value tt, es) /\
      cout_text es
      = String.concat ("," +:+ endl)
          (grid_row show mat width <$> seqZ y (Z.of_nat n))
        +:+ (if 0 <? Z.of_nat n then endl else "").
Proof using All.
  induction n as [|n IH]; intros y Hy Hyn.
  - exists []. split; reflexivity.
  - destruct (IH (y + 1) ltac:(lia) ltac:(lia)) as (es & Hes & Htext).
    destruct (print_row_text y ltac:(lia)) as (er & Her & Hrow).
    exists (er ++ es). split.
    + cbn [proc_for]. apply (pbind_Value_eq _ _ tt _ _ _ Her Hes).
    + rewrite cout_text_app, Hrow, Htext.
      rewrite (seqZ_cons y) by lia. rewrite fmap_cons.
      replace (Z.succ y) with (y + 1) by lia.
      replace (Z.pred (Z.of_nat (S n))) with (Z.of_nat n) by lia.
      rewrite (proj2 (Z.ltb_lt 0 (Z.of_nat (S n)))) by lia.
      replace (y + 1 <? height) with (0 <? Z.of_nat n)
        by (destruct (0 <? Z.of_nat n) eqn:E1, (y + 1 <? height) eqn:E2; lia).
      rewrite concat_cons. destruct n as [|n].
      * cbn. now rewrite !string_app_nil_r.
      * rewrite (proj2 (Z.ltb_lt 0 (Z.of_nat (S n)))) by lia.
        rewrite (seqZ_cons (y + 1)) by lia. rewrite fmap_cons.
        rewrite !string_app_assoc. reflexivity.
Qed.
End Grid.

(** X11. What [printMatrix] prints.  On a matrix that holds
    [width * height] elements the call runs to its end, and the text it
    puts on [std::cout] is the grid [grid_text]: one bracketed row per line,
    row [y] made of the elements [y*width .. y*width+width-1] separated by
    single spaces (none after the last), rows separated by commas (none
    after the last), all between "[" and "]". *)
Theorem printMatrix_prints_the_grid {T} (show : T -> string) (mat : list T)
    (width height : Z) :
  0 <= width -> 0 <= height ->
  width * height <= Z.of_nat (length mat) ->
  Z.of_nat (length mat) < 18446744073709551616 ->
  height < 18446744073709551616 ->
  exists es,
    printMatrix show mat width height = (Value tt, es) /\
    cout_text es = grid_text show mat width height.
Proof.
  intros Hw Hh Hlen Hsize Hhsize.
  destruct (print_rows_text show mat width height Hw Hh Hlen Hsize Hhsize
              (Z.to_nat height) 0 ltac:(lia) ltac:(lia))
    as (es & Hes & Htext).
  rewrite printMatrix_unfold, Hes. unfold print. rewrite !pbind_Value.
  cbn [fst snd]. eexists. split; [reflexivity|].
  rewrite !cout_text_app, Htext, !cout_text_print. unfold grid_text.
  rewrite Z2Nat.id by lia. now rewrite !string_app_assoc.
Qed.

Lemma concat_length_uniform sep (m : nat) (cells : list string) :
  Forall (fun c => String.length c = m) cells ->
  String.length (String.concat sep cells)
  = (length cells * m + (length cells - 1) * String.length sep)%nat.
Proof.
  induction 1 as [|c cells Hc Hcells IH]; [reflexivity|].
  rewrite concat_cons. destruct cells as [|c' cells].
  - cbn [length]. lia.
  - rewrite !string_length_app, IH, Hc. cbn [length]. nia.
Qed.

(** The grid, without a name attached. *)
Lemma printMatrix_text {T} (show : T -> string) (mat : list T)
    (width height : Z) :
  0 <= width -> 0 <= height ->
  width * height <= Z.of_nat (length mat) ->
  Z.of_nat (length mat) < 18446744073709551616 ->
  height < 18446744073709551616 ->
  exists es,
    printMatrix show mat width height = (Value tt, es) /\
    cout_text es = grid_text show mat width height.
Proof.
  intros Hw Hh Hlen Hsize Hhsize.
  destruct (print_rows_text show mat width height Hw Hh Hlen Hsize Hhsize
              (Z.to_nat height) 0 ltac:(lia) ltac:(lia))
    as (es & Hes & Htext).
  rewrite printMatrix_unfold, Hes. unfold print. rewrite !pbind_Value.
  cbn [fst snd]. eexists. split; [reflexivity|].
  rewrite !cout_text_app, Htext, !cout_text_print. unfold grid_text.
  rewrite Z2Nat.id by lia. now rewrite !string_app_assoc.
Qed.

(** X12. What [printMatrix] prints is aligned.  For a matrix of at least
    one column, the text on [std::cout] is "[", the rows separated by a
    comma and a newline, and "]"; there are [height] rows, all of the same
    length [2 + width * (maxWidth + 1)]; each row is " [", [width] cells
    separated by single spaces, and "]"; and cell [x] of row [y] is exactly
    [maxWidth] characters wide and ends with the whole text of element
    [y*width + x] of the matrix (padded on the left, never cut). *)
Theorem grid_is_aligned {T} (show : T -> string) (mat : list T)
    (width height : Z) :
  0 < width -> 0 <= height ->
  width * height <= Z.of_nat (length mat) ->
  Z.of_nat (length mat) < 18446744073709551616 ->
  height < 18446744073709551616 ->
  let w := max_text_width show mat in
  exists es rows,
    printMatrix show mat width height = (Value tt, es) /\
    cout_text es
    = ("[" +:+ endl) +:+ String.concat ("," +:+ endl) rows
      +:+ (if 0 <? height then endl else "") +:+ ("]" +:+ endl) /\
    length rows = Z.to_nat height /\
    forall (y : nat) (row : string), rows !! y = Some row ->
      String.length row = (2 + Z.to_nat width * (w + 1))%nat /\
      exists cells,
        row = " [" +:+ String.concat " " cells +:+ "]" /\
        length cells = Z.to_nat width /\
        forall (x : nat) (cell : string), cells !! x = Some cell ->
          String.length cell = w /\
          exists v pad,
            mat !! (y * Z.to_nat width + x)%nat = Some v /\
            cell = pad +:+ show v.
Proof.
  intros Hw Hh Hlen Hsize Hhsize w.
  destruct (printMatrix_text show mat width height) as (es & Hes & Htext);
    try assumption; [lia|].
  exists es, (grid_row show mat width <$> seqZ 0 height).
  split; [exact Hes|]. split; [exact Htext|].
  split; [now rewrite length_fmap, length_seqZ|].
  intros y row Hrow.
  rewrite list_lookup_fmap in Hrow.
  apply fmap_Some in Hrow as (yz & Hyz & ->).
  apply lookup_seqZ in Hyz as [-> Hy]. rewrite Z.add_0_l.
  set (chunk := take (Z.to_nat width)
                  (drop (Z.to_nat (Z.of_nat y * width)) mat)).
  assert (Hchunk : length chunk = Z.to_nat width).
  { unfold chunk. rewrite length_take, length_drop. nia. }
  assert (Hcells : forall (x : nat) v, chunk !! x = Some v ->
            mat !! (y * Z.to_nat width + x)%nat = Some v).
  { intros x v Hv. unfold chunk in Hv.
    apply lookup_take_Some in Hv as [Hv _]. rewrite lookup_drop in Hv.
    replace (y * Z.to_nat width)%nat with (Z.to_nat (Z.of_nat y * width))
      by nia.
    exact Hv. }
  assert (Hwidth : forall v, v ∈ chunk ->
            String.length (setw w (show v)) = w).
  { intros v Hv. apply list_elem_of_lookup in Hv as [x Hv].
    apply Hcells in Hv. apply list_elem_of_lookup_2 in Hv.
    rewrite setw_length.
    pose proof (max_text_width_ge show mat v Hv) as Hle. fold w in Hle. lia. }
  split.
  - unfold grid_row. fold w. fold chunk. rewrite !string_length_app.
    rewrite (concat_length_uniform " " w).
    + rewrite length_fmap, Hchunk. cbn [String.length]. nia.
    + apply Forall_fmap, Forall_forall. intros v Hv. cbn. now apply Hwidth.
  - exists ((fun v => setw w (show v)) <$> chunk).
    split; [reflexivity|]. split; [now rewrite length_fmap|].
    intros x cell Hcell. rewrite list_lookup_fmap in Hcell.
    apply fmap_Some in Hcell as (v & Hv & ->). split.
    + apply Hwidth. eapply list_elem_of_lookup_2, Hv.
    + exists v. eexists. split; [now apply Hcells | reflexivity].
Qed.

Lemma cout_only_app es1 es2 :
  cout_only es1 -> cout_only es2 -> cout_only (es1 ++ es2).
Proof. intros H1 H2. apply Forall_app. now split. Qed.

Lemma cout_only_pbind {X Y} (m : Proc X) (k : X -> Proc Y) :
  cout_only (snd m) -> (forall x, cout_only (snd (k x))) ->
  cout_only (snd (pbind m k)).
Proof.
  intros Hm Hk. destruct m as [[x|c|f] es]; try exact Hm.
  rewrite pbind_Value. apply cout_only_app; [exact Hm | apply Hk].
Qed.

Lemma cout_only_print t : cout_only (snd (print Cout t)).
Proof. repeat constructor. now exists t. Qed.

Lemma cout_only_nil : cout_only [].
Proof. constructor. Qed.

Lemma cout_only_proc_for (body : Z -> Proc unit) (n : nat) :
  (forall j, cout_only (snd (body j))) ->
  forall i, cout_only (snd (proc_for n i body)).
Proof.
  intros Hbody. induction n as [|n IH]; intros i; [apply cout_only_nil|].
  cbn [proc_for]. apply cout_only_pbind; [apply Hbody | intros _; apply IH].
Qed.

Lemma printMatrix_cout_only {T} (show : T -> string) (mat : list T)
    width height :
  cout_only (snd (printMatrix show mat width height)).
Proof.
  unfold printMatrix.
  apply cout_only_pbind; [apply cout_only_print | intros _].
  apply cout_only_pbind; [|intros _; apply cout_only_print].
  apply cout_only_proc_for. intros y.
  apply cout_only_pbind; [apply cout_only_print | intros _].
  apply cout_only_pbind.
  - apply cout_only_proc_for. intros x. cbn zeta.
    apply cout_only_pbind.
    + destruct (mat !! _); apply cout_only_nil.
    + intros val. apply cout_only_pbind; [apply cout_only_print | intros _].
      destruct (_ <? _); [apply cout_only_print | apply cout_only_nil].
  - intros _. apply cout_only_pbind; [apply cout_only_print | intros _].
    apply cout_only_pbind; [|intros _; apply cout_only_print].
    destruct (_ <? _); [apply cout_only_print | apply cout_only_nil].
Qed.

Lemma cout_only_no_cerr es :
  cout_only es -> text_of Cerr es = [] /\ compared es = [].
Proof.
  induction 1 as [|e es [t ->] _ [IH1 IH2]]; [now split|].
  split; cbn; assumption.
Qed.

(** X13. Whatever it is given, also when it faults, [printMatrix] writes to
    [std::cout] alone: nothing reaches [std::cerr]. *)
Theorem printMatrix_writes_to_cout_only {T} (show : T -> string)
    (mat : list T) (width height : Z) :
  cout_only (snd (printMatrix show mat width height)) /\
  text_of Cerr (snd (printMatrix show mat width height)) = [].
Proof.
  split; [apply printMatrix_cout_only|].
  apply cout_only_no_cerr, printMatrix_cout_only.
Qed.

(** *** A matrix that is too short *)

Lemma fst_pbind_Faulted {X Y} (m : Proc X) (k : X -> Proc Y) f :
  fst m = Faulted f -> fst (pbind m k) = Faulted f.
Proof. destruct m as [[x|c|f'] es]; cbn; congruence. Qed.

Lemma fst_pbind_completes {Y} (m : Proc unit) (k : unit -> Proc Y) :
  completes m -> fst (pbind m k) = fst (k tt).
Proof. intros [es ->]. now rewrite pbind_Value. Qed.

Lemma proc_for_faults (body : Z -> Proc unit) (f : fault) (n : nat) :
  forall i p,
    i <= p < i + Z.of_nat n ->
    (forall j, i <= j < p -> completes (body j)) ->
    fst (body p) = Faulted f ->
    fst (proc_for n i body) = Faulted f.
Proof.
  induction n as [|n IH]; intros i p Hp Hbefore Hfault; [lia|].
  cbn [proc_for]. destruct (decide (i = p)) as [->|Hne].
  - now apply fst_pbind_Faulted.
  - rewrite fst_pbind_completes by (apply Hbefore; lia).
    apply (IH (i + 1) p); [lia | intros j Hj; apply Hbefore; lia | exact Hfault].
Qed.

Lemma print_cell_completes {T} (show : T -> string) (mat : list T)
    width maxWidth y x :
  0 <= x -> 0 <= y * width ->
  y * width + x < Z.of_nat (length mat) ->
  y * width + x < 18446744073709551616 ->
  completes (print_cell show mat width maxWidth y x).
Proof.
  intros Hx Hyw Hi Hsz. unfold print_cell. cbn zeta.
  rewrite (wrap_size_id (y * width)) by lia.
  rewrite (wrap_size_id (y * width + x)) by lia.
  destruct (lookup_lt_is_Some_2 mat (Z.to_nat (y * width + x)))
    as [v ->]; [lia|].
  cbn [lift_result]. fold (pret v). rewrite pbind_pret.
  apply completes_pbind; [apply completes_print|].
  destruct (_ <? _); [apply completes_print | apply completes_pret].
Qed.

(** On a matrix of fewer than [width * height] elements the run ends at the
    read of index [length mat], the first access outside the vector. *)
Lemma printMatrix_short_matrix_outcome {T} (show : T -> string)
    (mat : list T) (width height : Z) :
  0 <= width -> 0 <= height ->
  Z.of_nat (length mat) < width * height ->
  width * height < 18446744073709551616 ->
  fst (printMatrix show mat width height)
  = Faulted (OutOfRange Mat (Z.of_nat (length mat))).
Proof.
  intros Hw Hh Hshort Hsize.
  set (L := Z.of_nat (length mat)) in *.
  assert (Hwpos : 0 < width) by nia.
  pose proof (Z.div_mod L width ltac:(lia)) as Hdm.
  pose proof (Z.mod_pos_bound L width Hwpos) as Hx0.
  assert (Hy0 : 0 <= L / width < height).
  { split; [apply Z.div_pos; lia | apply Z.div_lt_upper_bound; lia]. }
  set (y0 := L / width) in *. set (x0 := L mod width) in *.
  rewrite printMatrix_unfold.
  rewrite fst_pbind_completes by apply completes_print.
  apply fst_pbind_Faulted.
  apply (proc_for_faults _ _ _ 0 y0); [lia | |].
  - intros y Hy. unfold print_row.
    apply completes_pbind; [apply completes_print|].
    apply completes_pbind.
    + apply completes_proc_for. intros x Hx.
      apply print_cell_completes; fold L; nia.
    + apply completes_pbind; [apply completes_print|].
      apply completes_pbind; [|apply completes_print].
      destruct (_ <? _); [apply completes_print | apply completes_pret].
  - unfold print_row.
    rewrite fst_pbind_completes by apply completes_print.
    apply fst_pbind_Faulted.
    apply (proc_for_faults _ _ _ 0 x0); [lia | |].
    + intros x Hx. apply print_cell_completes; fold L; nia.
    + unfold print_cell. cbn zeta.
      rewrite (wrap_size_id (y0 * width)) by nia.
      rewrite (wrap_size_id (y0 * width + x0)) by nia.
      replace (y0 * width + x0) with L by lia.
      rewrite lookup_ge_None_2 by (subst L; lia). reflexivity.
Qed.

(** X14. The bound on the matrix.  The element reads of [printMatrix] stay
    inside the vector exactly when it holds at least [width * height]
    elements.  When it holds fewer, the first read outside it is
    [mat[mat.size()]].  ([operator[]] does not check: in the source that
    read is undefined behaviour; the run of the model ends there.) *)
Theorem printMatrix_in_bounds_iff {T} (show : T -> string)
    (mat : list T) (width height : Z) :
  0 <= width -> 0 <= height ->
  width * height < 18446744073709551616 ->
  (completes (printMatrix show mat width height)
     <-> width * height <= Z.of_nat (length mat)) /\
  (Z.of_nat (length mat) < width * height ->
   fst (printMatrix show mat width height)
   = Faulted (OutOfRange Mat (Z.of_nat (length mat)))).
Proof.
  intros Hw Hh Hsize.
  assert (Hshort : Z.of_nat (length mat) < width * height ->
            fst (printMatrix show mat width height)
            = Faulted (OutOfRange Mat (Z.of_nat (length mat))))
    by (intros Hs; now apply printMatrix_short_matrix_outcome).
  split; [|exact Hshort]. split.
  - intros [es Hes].
    destruct (Z_lt_le_dec (Z.of_nat (length mat)) (width * height)) as [Hs|Hs];
      [|exact Hs].
    apply Hshort in Hs. rewrite Hes in Hs. discriminate.
  - intros Hle. now apply printMatrix_completes.
Qed.

(* ===================================================================== *)
(** * Further properties of the comparison and of main *)
(* ===================================================================== *)

Lemma SFeqb_refl (x : float) : not_nan x -> SFeqb x x = true.
Proof.
  unfold not_nan, SFeqb, SFcompare. destruct x as [s|s| |s m e];
    try congruence; intros _.
  - now destruct s.
  - destruct s; rewrite Z.compare_refl, Pos.compare_cont_refl; reflexivity.
Qed.

Lemma SFeqb_nan (x : float) : SFeqb x x = true -> not_nan x.
Proof. unfold not_nan. intros H ->. discriminate. Qed.

(** X15. A buffer compared with itself passes exactly when none of the
    elements compared is a NaN: [!=] holds between a NaN and itself, so a
    NaN in the reference fails the test whatever the kernel returns. *)
Theorem self_comparison_passes_iff_no_nan (show_float : float -> string)
    (show_int : Z -> string) (buf : list float) (n : nat) :
  (n <= length buf)%nat ->
  exists manual_match es,
    compare_results show_float show_int n 0 buf buf
      = (Value manual_match, es) /\
    (manual_match = true <-> Forall not_nan (take n buf)).
Proof.
  intros Hn.
  destruct (compare_results_spec show_float show_int buf buf n 0)
    as [[Heq Hall]|(j & a & b & Hj & Ha & Hb & Hne & _ & Heq)];
    try lia; rewrite Heq; eexists _, _; (split; [reflexivity|]).
  - split; [intros _|reflexivity].
    apply Forall_lookup_2. intros i v Hv.
    apply lookup_take_Some in Hv as [Hv Hi].
    destruct (Hall (Z.of_nat i) ltac:(lia)) as (a & b & Ha & Hb & Hab).
    rewrite vec_index_lookup, Nat2Z.id in Ha, Hb by lia.
    assert (a = v) by congruence. assert (b = v) by congruence. subst a b.
    apply SFeqb_nan. unfold float_ne in Hab. now destruct (SFeqb v v).
  - split; [discriminate|]. intros Hall. exfalso.
    rewrite vec_index_lookup in Ha, Hb by lia.
    assert (b = a) by congruence. subst b.
    assert (Hin : take n buf !! Z.to_nat j = Some a)
      by (apply lookup_take_Some; split; [exact Ha | lia]).
    pose proof (Forall_lookup_1 _ _ _ _ Hall Hin) as Hnn.
    unfold float_ne in Hne. now rewrite (SFeqb_refl a Hnn) in Hne.
Qed.

Lemma compare_results_no_cout show_float show_int cpu kernel (n : nat) :
  (n <= length cpu)%nat -> (n <= length kernel)%nat ->
  text_of Cout (snd (compare_results show_float show_int n 0 cpu kernel)) = [].
Proof.
  intros Hc Hk.
  destruct (compare_results_spec show_float show_int cpu kernel n 0)
    as [[Heq _]|(j & a & b & _ & _ & _ & _ & _ & Heq)];
    try lia; rewrite Heq; cbn [snd].
  - apply text_of_Compared.
  - now rewrite text_of_app, text_of_Compared.
Qed.


Section MainOutput.
Context (show_float : float -> string) (show_int : Z -> string).

Lemma CL_CHECK_fails status printed line :
  (status =? CL_SUCCESS) = false ->
  CL_CHECK show_int status printed line
  = (Exited 1,
     [Print Cerr ("OpenCL Error: " +:+ show_int printed +:+ " at line "
                    +:+ show_int line +:+ endl)]).
Proof. intros H. unfold CL_CHECK. now rewrite H. Qed.

Lemma prefix_app (s t : string) : String.prefix s (s +:+ t) = true.
Proof.
  induction s as [|a s IH]; [now destruct t|].
  change (match Ascii.ascii_dec a a with
          | left _ => String.prefix s (s +:+ t)
          | right _ => false
          end = true).
  destruct (Ascii.ascii_dec a a); [exact IH | congruence].
Qed.

Lemma build_error_message_prefix log :
  String.prefix "OpenCL Build Error: " (build_error_message log) = true.
Proof.
  destruct log as [text|]; [apply prefix_app|].
  apply (prefix_app "OpenCL Build Error: " "").
Qed.

Ltac fatal_message :=
  split; [reflexivity|]; split; [reflexivity|];
  eexists; (split; [reflexivity|]);
  first [ left; apply prefix_app
        | right; left; reflexivity
        | right; right; apply build_error_message_prefix ].

Ltac check_step s :=
  let E := fresh "E" in
  destruct (s =? CL_SUCCESS) eqn:E;
  [ rewrite (CL_CHECK_success _ _ _ _ E), pbind_pret
  | rewrite (CL_CHECK_fails _ _ _ E); fatal_message ].

(** X16. A fatal error is reported once and nothing else is printed: when a
    checked call fails, the kernel file does not open or the build fails,
    exactly one output statement writes to [std::cerr] and none to
    [std::cout], and no element is compared.  What that statement writes is
    the message of [CL_CHECK] (it begins with "OpenCL Error: "), the line
    about the kernel file, or the build error (it begins with
    "OpenCL Build Error: " and goes on with the build log, which may have
    several lines). *)
Theorem fatal_error_output (env : Env) :
  setup_succeeds env = false ->
  text_of Cout (snd (main show_float show_int env)) = [] /\
  compared (snd (main show_float show_int env)) = [] /\
  exists message,
    text_of Cerr (snd (main show_float show_int env)) = [message] /\
    (String.prefix "OpenCL Error: " message = true \/
     message = "Could not open kernel file sampler_test.cl" +:+ endl \/
     String.prefix "OpenCL Build Error: " message = true).
Proof.
  intros H. unfold main. rewrite cpu_result_eq.
  change (lift_result (inr expected_buffer)) with (pret expected_buffer).
  rewrite pbind_pret.
  check_step (clGetPlatformIDs env). check_step (clGetDeviceIDs env).
  check_step (clCreateContext env). check_step (clCreateCommandQueue env).
  destruct (kernel_file_is_open env) eqn:Efile; cbn [negb];
    [|fatal_message].
  check_step (clCreateProgramWithSource env).
  destruct (clBuildProgram env =? CL_SUCCESS) eqn:Ebuild; cbn [negb].
  - check_step (clCreateKernel env). check_step (clCreateImage_in env).
    check_step (clCreateImage_out env). check_step (clSetKernelArg_0 env).
    check_step (clSetKernelArg_1 env). check_step (clSetKernelArg_2 env).
    check_step (clEnqueueNDRangeKernel env).
    check_step (clEnqueueReadImage env). check_step (clFinish env).
    unfold setup_succeeds in H.
    repeat match goal with
           | E : _ = true |- _ => rewrite E in H; clear E
           end.
    discriminate.
  - check_step (clGetProgramBuildInfo_size env).
    check_step (clGetProgramBuildInfo_log env).
    fatal_message.
Qed.

End MainOutput.

(** ** What reaches std::cout *)

(** C8. Once the set-up has succeeded, whatever the outcome [manual_match]
    of the comparison, what the run does after the comparison is: print the
    header, the verdict, then [cpu_result] and [kernel_result_manual], each
    through [printMatrix], which runs to its end on them and writes the
    whole buffer as a grid ([grid_text]: 12 rows of 12 cells, each cell the
    text of one element).  Nothing in this tail depends on [manual_match]
    but the word PASS or FAIL; the text on [std::cout] is the header, the
    verdict, "CPU Result:", the grid of the expected buffer,
    "Kernel Result:" and the grid of the kernel buffer. *)
Theorem both_buffers_always_printed (show_float : float -> string)
    (show_int : Z -> string) (env : Env) :
  setup_succeeds env = true ->
  let comparison :=
    compare_results show_float show_int (Z.to_nat output_size) 0
      expected_buffer (kernel_result_manual env) in
  let grid_cpu :=
    printMatrix show_float expected_buffer output_width output_height in
  let grid_kernel :=
    printMatrix show_float (kernel_result_manual env)
      output_width output_height in
  exists manual_match,
    cpu_result = inr expected_buffer /\
    fst comparison = Value manual_match /\
    completes grid_cpu /\ completes grid_kernel /\
    snd (main show_float show_int env)
    = snd comparison
      ++ [Print Cout (endl +:+ "--- Results Comparison ---" +:+ endl);
          Print Cout ("CPU vs. Manual Mirrored Kernel: "
                        +:+ (if manual_match then "PASS" else "FAIL")
                        +:+ endl);
          Print Cout ("CPU Result:" +:+ endl)]
      ++ snd grid_cpu
      ++ [Print Cout (endl +:+ "Kernel Result:" +:+ endl)]
      ++ snd grid_kernel /\
    cout_text (snd grid_cpu)
    = grid_text show_float expected_buffer output_width output_height /\
    cout_text (snd grid_kernel)
    = grid_text show_float (kernel_result_manual env)
        output_width output_height /\
    cout_text (snd (main show_float show_int env))
    = ((endl +:+ "--- Results Comparison ---" +:+ endl)
         +:+ ("CPU vs. Manual Mirrored Kernel: "
                +:+ (if manual_match then "PASS" else "FAIL") +:+ endl)
         +:+ ("CPU Result:" +:+ endl))
      +:+ grid_text show_float expected_buffer output_width output_height
      +:+ (endl +:+ "Kernel Result:" +:+ endl)
      +:+ grid_text show_float (kernel_result_manual env)
            output_width output_height.
Proof.
  intros H comparison grid_cpu grid_kernel.
  destruct (main_success show_float show_int env H)
    as (m & es & g1 & g2 & Hcmp & Hg1 & Hg2 & Hmain).
  destruct (printMatrix_text show_float expected_buffer
              output_width output_height) as (e1 & He1 & Ht1);
    try (rewrite expected_buffer_length; unfold output_width, output_height;
         lia);
    try (unfold output_width, output_height; lia).
  destruct (printMatrix_text show_float (kernel_result_manual env)
              output_width output_height) as (e2 & He2 & Ht2);
    try (rewrite kernel_result_manual_length;
         unfold output_width, output_height; lia);
    try (unfold output_width, output_height; lia).
  assert (e1 = g1) by congruence. assert (e2 = g2) by congruence.
  subst e1 e2.
  pose proof (compare_results_no_cout show_float show_int expected_buffer
                (kernel_result_manual env) (Z.to_nat output_size)) as Hno.
  rewrite Hcmp in Hno. cbn [snd] in Hno.
  specialize (Hno ltac:(now rewrite expected_buffer_length)
                  ltac:(now rewrite kernel_result_manual_length)).
  assert (Hes : cout_text es = "") by (unfold cout_text; now rewrite Hno).
  exists m. subst comparison grid_cpu grid_kernel.
  rewrite Hmain, Hcmp, Hg1, Hg2. cbn [fst snd].
  split; [apply cpu_result_eq|]. split; [reflexivity|].
  split; [eexists; reflexivity|]. split; [eexists; reflexivity|].
  split; [reflexivity|]. split; [exact Ht1|]. split; [exact Ht2|].
  rewrite !cout_text_app, Hes, Ht1, Ht2.
  generalize (grid_text show_float expected_buffer output_width output_height).
  generalize (grid_text show_float (kernel_result_manual env)
                output_width output_height).
  intros G2 G1. reflexivity.
Qed.

(* ===================================================================== *)
(** * The further properties at concrete inputs *)
(* ===================================================================== *)

Lemma empty_destination_is_a_no_op_witness :
  cpu_reference_calculation 0 0 0 5 0 0 (Store [1; 2] [0] [])
  = inr (tt, Store [1; 2] [0] []).
Proof. apply empty_destination_is_a_no_op. left. lia. Defined.

Lemma zero_extent_divides_by_zero_witness :
  cpu_reference_calculation 3 0 2 2 0 0 (Store [1; 2; 3] [0; 0; 0; 0] [])
  = inl DivisionByZero.
Proof. apply zero_extent_divides_by_zero; [right; reflexivity | lia | lia]. Defined.

Lemma mirror_axis_faults_iff_witness :
  (mirror_axis INT_MIN 3 = inl DivisionByZero
     <-> INT_MIN = 0 \/ INT_MIN = INT_MIN) /\
  (forall f, mirror_axis INT_MIN 3 = inl f -> f = DivisionByZero).
Proof. apply mirror_axis_faults_iff; side_condition. Defined.

Lemma destination_values_come_from_source_witness :
  exists dst',
    call_cpu_reference_calculation (seqZ 0 20) (replicate 144 0)
      4 5 12 12 5 2 = inr dst' /\
    Forall (fun v => v ∈ seqZ 0 20) dst'.
Proof.
  apply (destination_values_come_from_source (seqZ 0 20) (replicate 144 0)
           4 5 12 12 5 2); side_condition.
Defined.

Lemma destination_in_bounds_iff_witness :
  let run := cpu_reference_calculation 3 1 2 2 1 0
               (Store [7; 8; 9] [0; 0; 0] []) in
  ((exists st, run = inr (tt, st)) <-> 2 * 2 <= Z.of_nat (length [0; 0; 0]))
  /\
  (Z.of_nat (length [0; 0; 0]) < 2 * 2 ->
   run = inl (OutOfRange DstData (Z.of_nat (length [0; 0; 0])))).
Proof.
  apply (destination_in_bounds_iff [7; 8; 9] [0; 0; 0] 3 1 2 2 1 0);
    side_condition.
Defined.

Lemma mirror_axis_preimage_witness :
  mirror_axis 4 (-5) = inr 3
  <-> 0 <= 3 < 4 /\ (-5 mod (2 * 4) = 3 \/ -5 mod (2 * 4) = 2 * 4 - 1 - 3).
Proof. apply mirror_axis_preimage; side_condition. Defined.

Lemma source_window_is_copied_witness :
  exists dst',
    call_cpu_reference_calculation (seqZ 0 20) (replicate 144 0)
      4 5 12 12 5 2 = inr dst' /\
    forall x y, 0 <= x < 12 -> 0 <= y < 12 ->
      0 <= x - 5 < 4 -> 0 <= y - 2 < 5 ->
      vec_index dst' (y * 12 + x) = vec_index (seqZ 0 20) ((y - 2) * 4 + (x - 5)).
Proof.
  apply (source_window_is_copied (seqZ 0 20) (replicate 144 0)
           4 5 12 12 5 2); side_condition.
Defined.

Lemma image_is_periodic_witness :
  exists dst',
    call_cpu_reference_calculation (seqZ 0 20) (replicate 144 0)
      4 5 12 12 5 2 = inr dst' /\
    forall x y x' y' cx cy,
      0 <= x < 12 -> 0 <= y < 12 -> 0 <= x' < 12 -> 0 <= y' < 12 ->
      x' = x + 2 * 4 * cx -> y' = y + 2 * 5 * cy ->
      vec_index dst' (y' * 12 + x') = vec_index dst' (y * 12 + x).
Proof.
  apply (image_is_periodic (seqZ 0 20) (replicate 144 0) 4 5 12 12 5 2);
    side_condition.
Defined.

Lemma image_is_mirror_symmetric_witness :
  exists dst',
    call_cpu_reference_calculation (seqZ 0 20) (replicate 144 0)
      4 5 12 12 5 2 = inr dst' /\
    (forall x x' y c,
       0 <= x < 12 -> 0 <= x' < 12 -> 0 <= y < 12 ->
       x + x' = 2 * (5 + 4 * c) - 1 ->
       vec_index dst' (y * 12 + x') = vec_index dst' (y * 12 + x)) /\
    (forall x y y' c,
       0 <= x < 12 -> 0 <= y < 12 -> 0 <= y' < 12 ->
       y + y' = 2 * (2 + 5 * c) - 1 ->
       vec_index dst' (y' * 12 + x) = vec_index dst' (y * 12 + x)).
Proof.
  apply (image_is_mirror_symmetric (seqZ 0 20) (replicate 144 0)
           4 5 12 12 5 2); side_condition.
Defined.

Lemma offset_translates_image_witness :
  exists out1 out2,
    call_cpu_reference_calculation (seqZ 0 20) (replicate 144 0)
      4 5 12 12 5 2 = inr out1 /\
    call_cpu_reference_calculation (seqZ 0 20) (replicate 144 1)
      4 5 12 12 (5 + 3) (2 + -1) = inr out2 /\
    forall x y,
      0 <= x < 12 -> 0 <= y < 12 -> 0 <= x + 3 < 12 -> 0 <= y + -1 < 12 ->
      vec_index out2 ((y + -1) * 12 + (x + 3)) = vec_index out1 (y * 12 + x).
Proof.
  apply (offset_translates_image (seqZ 0 20) (replicate 144 0)
           (replicate 144 1) 4 5 12 12 5 2 3 (-1)); side_condition.
Defined.

Lemma printMatrix_prints_the_grid_witness :
  exists es,
    printMatrix show_small [7; 10; 7; 7] 2 2 = (Value tt, es) /\
    cout_text es = grid_text show_small [7; 10; 7; 7] 2 2.
Proof.
  apply (printMatrix_prints_the_grid show_small [7; 10; 7; 7] 2 2);
    side_condition.
Defined.

Lemma grid_is_aligned_witness :
  let mat := [7; 10; 7; 7] in
  let w := max_text_width show_small mat in
  exists es rows,
    printMatrix show_small mat 2 2 = (Value tt, es) /\
    cout_text es
    = ("[" +:+ endl) +:+ String.concat ("," +:+ endl) rows
      +:+ (if 0 <? 2 then endl else "") +:+ ("]" +:+ endl) /\
    length rows = Z.to_nat 2 /\
    forall (y : nat) (row : string), rows !! y = Some row ->
      String.length row = (2 + Z.to_nat 2 * (w + 1))%nat /\
      exists cells,
        row = " [" +:+ String.concat " " cells +:+ "]" /\
        length cells = Z.to_nat 2 /\
        forall (x : nat) (cell : string), cells !! x = Some cell ->
          String.length cell = w /\
          exists v pad,
            mat !! (y * Z.to_nat 2 + x)%nat = Some v /\
            cell = pad +:+ show_small v.
Proof.
  apply (grid_is_aligned show_small [7; 10; 7; 7] 2 2); side_condition.
Defined.

Lemma printMatrix_in_bounds_iff_witness :
  (completes (printMatrix show_small [7; 10; 7] 2 2)
     <-> 2 * 2 <= Z.of_nat (length [7; 10; 7])) /\
  (Z.of_nat (length [7; 10; 7]) < 2 * 2 ->
   fst (printMatrix show_small [7; 10; 7] 2 2)
   = Faulted (OutOfRange Mat (Z.of_nat (length [7; 10; 7])))).
Proof.
  apply (printMatrix_in_bounds_iff show_small [7; 10; 7] 2 2);
    side_condition.
Defined.

Lemma self_comparison_passes_iff_no_nan_witness :
  let buf := [float_of_int 1; S754_nan] in
  exists manual_match es,
    compare_results (fun _ => "f") (fun _ => "i") 2 0 buf buf
      = (Value manual_match, es) /\
    (manual_match = true <-> Forall not_nan (take 2 buf)).
Proof.
  apply (self_comparison_passes_iff_no_nan (fun _ => "f") (fun _ => "i")
           [float_of_int 1; S754_nan] 2).
  simpl. lia.
Defined.

Lemma fatal_error_output_witness :
  let run := main (fun _ => "f") (fun _ => "i") env_no_platform in
  text_of Cout (snd run) = [] /\
  compared (snd run) = [] /\
  exists message,
    text_of Cerr (snd run) = [message] /\
    (String.prefix "OpenCL Error: " message = true \/
     message = "Could not open kernel file sampler_test.cl" +:+ endl \/
     String.prefix "OpenCL Build Error: " message = true).
Proof.
  apply (fatal_error_output (fun _ => "f") (fun _ => "i") env_no_platform).
  reflexivity.
Defined.


(** C8 in [env_zero_image]. *)
Lemma both_buffers_always_printed_witness :
  let show_float := fun _ : float => "f" in
  let show_int := fun _ : Z => "i" in
  let comparison :=
    compare_results show_float show_int (Z.to_nat output_size) 0
      expected_buffer (kernel_result_manual env_zero_image) in
  let grid_cpu :=
    printMatrix show_float expected_buffer output_width output_height in
  let grid_kernel :=
    printMatrix show_float (kernel_result_manual env_zero_image)
      output_width output_height in
  exists manual_match,
    cpu_result = inr expected_buffer /\
    fst comparison = Value manual_match /\
    completes grid_cpu /\ completes grid_kernel /\
    snd (main show_float show_int env_zero_image)
    = snd comparison
      ++ [Print Cout (endl +:+ "--- Results Comparison ---" +:+ endl);
          Print Cout ("CPU vs. Manual Mirrored Kernel: "
                        +:+ (if manual_match then "PASS" else "FAIL")
                        +:+ endl);
          Print Cout ("CPU Result:" +:+ endl)]
      ++ snd grid_cpu
      ++ [Print Cout (endl +:+ "Kernel Result:" +:+ endl)]
      ++ snd grid_kernel /\
    cout_text (snd grid_cpu)
    = grid_text show_float expected_buffer output_width output_height /\
    cout_text (snd grid_kernel)
    = grid_text show_float (kernel_result_manual env_zero_image)
        output_width output_height /\
    cout_text (snd (main show_float show_int env_zero_image))
    = ((endl +:+ "--- Results Comparison ---" +:+ endl)
         +:+ ("CPU vs. Manual Mirrored Kernel: "
                +:+ (if manual_match then "PASS" else "FAIL") +:+ endl)
         +:+ ("CPU Result:" +:+ endl))
      +:+ grid_text show_float expected_buffer output_width output_height
      +:+ (endl +:+ "Kernel Result:" +:+ endl)
      +:+ grid_text show_float (kernel_result_manual env_zero_image)
            output_width output_height.
Proof.
  apply (both_buffers_always_printed (fun _ => "f") (fun _ => "i")
           env_zero_image).
  reflexivity.
Defined.
